(** * forecast.py: a cash-flow forecast over recurring transactions

    A shallow embedding of [src/forecast.py] and the properties its
    specification states about it.

    Modelling conventions.
    - Python integers are [Z]; [//] and [%] by a positive constant are [Z.div]
      and [Z.modulo] (both floor).
    - Amounts and balances are Python floats, that is IEEE binary64: Rocq's
      primitive [float] with [PrimFloat.add], [PrimFloat.abs], [PrimFloat.opp].
    - [datetime.date] is a record of year, month and day, compared
      lexicographically as CPython's [date._cmp] does; day arithmetic goes
      through the proleptic Gregorian ordinal as in CPython's [_ymd2ord] and
      [_ord2ymd].  The interpreter's upper limit on dates (year 9999) is not
      modelled: dates only move forward in this program and the model lets
      them do so without bound.
    - A statement that may call [exit_application] or raise runs in the
      [outcome] monad: normal completion, process exit with the line printed
      on standard output and the status code, an uncaught exception, or the
      exhaustion of the model's loop fuel.
    - The system clock, [date.fromisoformat], [float], [round] and the file
      system are the interpreter's; they are the fields of the class
      [Platform].  The clock is read as one fixed day for a whole run.
    - A statement that prints runs in [io]: the text written to standard
      output and the outcome.  How floats and dates are rendered as text is
      the interpreter's too (class [Rendering]), and so is the input file
      behind a path (class [Files]); [open] is taken to succeed on a path
      that [os.path.isfile] accepts.  A character of a string is one
      [ascii]. *)

From Stdlib Require Import ZArith Ascii String List Lia Bool PrimFloat.
From Stdlib Require FloatAxioms SpecFloat FloatOps.
From stdpp Require Import base gmap strings list.

Local Open Scope Z_scope.

(* ===================================================================== *)
(** * The standard library's [datetime.date]                              *)
(* ===================================================================== *)

Module datetime.

Record date : Type := mkdate { year : Z; month : Z; day : Z }.

(** [_is_leap]: year -> 1 if leap year, else 0. *)
Definition is_leap (y : Z) : bool :=
  (y mod 4 =? 0) && (negb (y mod 100 =? 0) || (y mod 400 =? 0)).

(** [_DAYS_IN_MONTH = [-1, 31, 28, 31, 30, 31, 30, 31, 31, 30, 31, 30, 31]] *)
Definition DAYS_IN_MONTH (m : Z) : Z :=
  match m with
  | 1 => 31 | 2 => 28 | 3 => 31 | 4 => 30 | 5 => 31 | 6 => 30
  | 7 => 31 | 8 => 31 | 9 => 30 | 10 => 31 | 11 => 30 | 12 => 31
  | _ => -1
  end.

(** [_DAYS_BEFORE_MONTH]: the running sums of [_DAYS_IN_MONTH]. *)
Definition DAYS_BEFORE_MONTH (m : Z) : Z :=
  match m with
  | 1 => 0 | 2 => 31 | 3 => 59 | 4 => 90 | 5 => 120 | 6 => 151
  | 7 => 181 | 8 => 212 | 9 => 243 | 10 => 273 | 11 => 304 | 12 => 334
  | _ => -1
  end.

(** [_days_before_year]: number of days before January 1st of year. *)
Definition days_before_year (y : Z) : Z :=
  let y := y - 1 in
  y * 365 + y / 4 - y / 100 + y / 400.

(** [_days_in_month], which is also [calendar.monthrange(year, month)[1]]. *)
Definition days_in_month (y m : Z) : Z :=
  if (m =? 2) && is_leap y then 29 else DAYS_IN_MONTH m.

(** [_days_before_month]: days in year preceding the first day of month. *)
Definition days_before_month (y m : Z) : Z :=
  DAYS_BEFORE_MONTH m + (if (m >? 2) && is_leap y then 1 else 0).

(** [_ymd2ord]: ordinal, considering 01-Jan-0001 as day 1. *)
Definition ymd2ord (y m d : Z) : Z :=
  days_before_year y + days_before_month y m + d.

Definition DI400Y : Z := 146097.
Definition DI100Y : Z := 36524.
Definition DI4Y : Z := 1461.

(** [_ord2ymd]: ordinal -> (year, month, day). *)
Definition ord2ymd (n : Z) : Z * Z * Z :=
  let n := n - 1 in
  let n400 := n / DI400Y in
  let n := n mod DI400Y in
  let year := n400 * 400 + 1 in
  let n100 := n / DI100Y in
  let n := n mod DI100Y in
  let n4 := n / DI4Y in
  let n := n mod DI4Y in
  let n1 := n / 365 in
  let n := n mod 365 in
  let year := year + n100 * 100 + n4 * 4 + n1 in
  if (n1 =? 4) || (n100 =? 4) then (year - 1, 12, 31)
  else
    let leapyear := (n1 =? 3) && (negb (n4 =? 24) || (n100 =? 3)) in
    let month := Z.shiftr (n + 50) 5 in
    let preceding :=
      DAYS_BEFORE_MONTH month + (if (month >? 2) && leapyear then 1 else 0) in
    if preceding >? n then
      let month := month - 1 in
      let preceding :=
        preceding
        - (DAYS_IN_MONTH month + (if (month =? 2) && leapyear then 1 else 0)) in
      (year, month, n - preceding + 1)
    else (year, month, n - preceding + 1).

Definition toordinal (d : date) : Z := ymd2ord (year d) (month d) (day d).

Definition fromordinal (n : Z) : date :=
  let '(y, m, d) := ord2ymd n in mkdate y m d.

(** [date.replace(year=..., month=..., day=...)] *)
Definition replace (_ : date) (y m d : Z) : date := mkdate y m d.

(** [date + timedelta(days=n)] *)
Definition add_days (d : date) (n : Z) : date :=
  fromordinal (toordinal d + n).

(** Comparisons: [date._cmp] compares the triples (year, month, day). *)
Definition eqb (a b : date) : bool :=
  (year a =? year b) && (month a =? month b) && (day a =? day b).

Definition ltb (a b : date) : bool :=
  (year a <? year b)
  || ((year a =? year b)
      && ((month a <? month b)
          || ((month a =? month b) && (day a <? day b)))).

Definition leb (a b : date) : bool := ltb a b || eqb a b.

(** The dates the class accepts: what [_check_date_fields] lets through
    (without the upper limit on the year). *)
Definition valid (d : date) : Prop :=
  1 <= year d /\ 1 <= month d <= 12 /\ 1 <= day d <= days_in_month (year d) (month d).

End datetime.

Abbreviation date := datetime.date.

(* ===================================================================== *)
(** * [dateutil.relativedelta]                                            *)
(* ===================================================================== *)

Module relativedelta.

(** The fields this program sets; the time-of-day and absolute fields stay
    at their defaults and play no part in adding to a [date]. *)
Record relativedelta : Type := mk { years : Z; months : Z; days : Z }.

(** [relativedelta(years=..., months=..., days=..., weeks=...)]: weeks are
    folded into days, and [_fix] moves whole dozens of months into years. *)
Definition make (years months days weeks : Z) : relativedelta :=
  let days := days + weeks * 7 in
  if Z.abs months >? 11 then
    let s := Z.sgn months in
    mk (years + (months * s / 12) * s) ((months * s) mod 12 * s) days
  else mk years months days.

(** [relativedelta.__radd__], reached by [date + relativedelta]: years and
    months first, with the month wrapped into 1..12 and the day clipped to
    the length of the target month, then the days. *)
Definition radd (self : relativedelta) (other : date) : date :=
  let year := datetime.year other + years self in
  let month := datetime.month other in
  let '(year, month) :=
    if negb (months self =? 0) then
      let month := month + months self in
      if month >? 12 then (year + 1, month - 12)
      else if month <? 1 then (year - 1, month + 12)
      else (year, month)
    else (year, month) in
  let day := Z.min (datetime.days_in_month year month) (datetime.day other) in
  datetime.add_days (datetime.replace other year month day) (days self).

End relativedelta.

Abbreviation relativedelta := relativedelta.relativedelta.

Notation "d '+rd' r" := (relativedelta.radd r d) (at level 50, left associativity).

(* ===================================================================== *)
(** * Outcomes of a statement                                             *)
(* ===================================================================== *)

(** The exceptions that escape uncaught somewhere in the program. *)
Inductive exn : Type := TypeError | IndexError | KeyError | AttributeError.

Inductive outcome (A : Type) : Type :=
| Ok (a : A)                         (* ran to completion *)
| Exit (message : string) (code : Z) (* [message] printed as one line on
                                        standard output, process exited
                                        with status [code] *)
| Raise (e : exn)                    (* uncaught exception: a traceback on
                                        standard error *)
| OutOfFuel.                         (* the model's bound on a loop ran out *)
Arguments Ok {A} a.
Arguments Exit {A} message code.
Arguments Raise {A} e.
Arguments OutOfFuel {A}.

#[global] Instance outcome_ret : MRet outcome := fun A a => Ok a.
#[global] Instance outcome_bind : MBind outcome := fun A B f c =>
  match c with
  | Ok a => f a
  | Exit message code => Exit message code
  | Raise e => Raise e
  | OutOfFuel => OutOfFuel
  end.

(** A [for] loop whose body updates a state and may stop the program. *)
Fixpoint for_each {S X : Type} (body : S -> X -> outcome S) (xs : list X) (s : S)
  : outcome S :=
  match xs with
  | [] => Ok s
  | x :: xs => s' ← body s x; for_each body xs s'
  end.

(** [def exit_application(message: str, code=1)]: [print(message)] then
    [exit(code)]. *)
Definition exit_application {A : Type} (message : string) (code : Z) : outcome A :=
  Exit message code.

(* ===================================================================== *)
(** * Values and the interpreter's services                               *)
(* ===================================================================== *)

(** A value read from a [csv.DictReader] row: a string, or [None] where the
    row was shorter than the header. *)
Definition cell : Type := option string.

(** [str(x)], as an f-string renders it. *)
Definition str (c : cell) : string :=
  match c with Some s => s | None => "None" end.

(** [value in [s1, s2, ...]] for a list of strings. *)
Definition cell_in (value : cell) (l : list string) : bool :=
  match value with
  | Some s => existsb (String.eqb s) l
  | None => false
  end.

(** The dynamically typed values the program passes around. *)
Inductive pyvalue : Type :=
| PyNone
| PyStr (s : string)
| PyDate (d : date)
| PyFloat (x : float).

Definition of_cell (c : cell) : pyvalue :=
  match c with Some s => PyStr s | None => PyNone end.

(** A [dict] with string keys, in insertion order. *)
Definition pydict : Type := list (string * pyvalue).
Definition keys (d : pydict) : list string := map fst d.

(** What opening a file for writing and writing the rows can do. *)
Inductive write_result : Type :=
| Written
| FileNotFoundError
| OtherException (e : string).

Class Platform : Type := {
  (** [datetime.date.today()] *)
  today : date;
  (** [datetime.date.fromisoformat(s)]; [None] stands for [ValueError]. *)
  fromisoformat : string -> option date;
  (** [float(s)] on a string; [None] stands for [ValueError]. *)
  py_float : string -> option float;
  (** [round(x, 2)] *)
  py_round2 : float -> float;
  (** [open(path, 'w', newline='')], [csv.DictWriter(file, fieldnames)],
      [writeheader()] and [writerows(rows)] *)
  write_csv : string -> list string -> list pydict -> write_result;
}.

(** What the proofs need of the interpreter: the dates it hands out are
    dates of the calendar. *)
Class PlatformLaws (P : Platform) : Prop := {
  today_valid : datetime.valid today;
  fromisoformat_valid : forall s d, fromisoformat s = Some d -> datetime.valid d;
}.

(* ===================================================================== *)
(** * Text and standard output                                            *)
(* ===================================================================== *)

(** [len(s)]; a character of a string is one [ascii]. *)
Definition len (s : string) : Z := Z.of_nat (String.length s).

(** [s * n]: the empty string when [n] is not positive. *)
Definition mul (s : string) (n : Z) : string :=
  Nat.iter (Z.to_nat n) (String.append s) EmptyString.

(** [s.ljust(width)], which is also [format(s, '<width')] for a string, and
    [s.rjust(width)], which is [format(s, '>width')]: the string is padded
    with spaces on the right or on the left, and left as it is when it is
    [width] characters long or longer. *)
Definition ljust (s : string) (width : Z) : string := s +:+ mul " " (width - len s).
Definition rjust (s : string) (width : Z) : string := mul " " (width - len s) +:+ s.

(** The line end that [print] writes. *)
Definition newline : string := String (ascii_of_nat 10) EmptyString.

(** How the interpreter renders values as text. *)
Class Rendering : Type := {
  (** [str(x)] for a float *)
  float_str : float -> string;
  (** [str(d)] for a date *)
  date_str : date -> string;
  (** [d.strftime('%Y-%m-%d')] *)
  strftime_ymd : date -> string;
  (** [format(x, ',.2f')] for a float *)
  format_comma_2f : float -> string;
}.

(** [str(v)] *)
Definition py_str {R : Rendering} (v : pyvalue) : string :=
  match v with
  | PyNone => "None"
  | PyStr s => s
  | PyDate d => date_str d
  | PyFloat x => float_str x
  end.

(** [f"{v:<{width}}"]: [None] has no format specifications. *)
Definition format_left (v : cell) (width : Z) : outcome string :=
  match v with
  | Some s => Ok (ljust s width)
  | None => Raise TypeError
  end.

(** [max(xs, default=default)] *)
Definition py_max (xs : list Z) (default : Z) : Z :=
  match xs with
  | [] => default
  | x :: xs => foldl Z.max x xs
  end.

(** A statement that prints: what it has written to standard output and how
    it went on.  The line that [exit_application] prints stays with [Exit]
    and is not repeated in [written]. *)
Record io (A : Type) : Type := mk_io { written : string; result : outcome A }.
Arguments mk_io {A} written result.
Arguments written {A} i.
Arguments result {A} i.

#[global] Instance io_ret : MRet io := fun A a => mk_io EmptyString (Ok a).
#[global] Instance io_bind : MBind io := fun A B f c =>
  match result c with
  | Ok a => mk_io (written c +:+ written (f a)) (result (f a))
  | Exit message code => mk_io (written c) (Exit message code)
  | Raise e => mk_io (written c) (Raise e)
  | OutOfFuel => mk_io (written c) OutOfFuel
  end.

(** A statement that prints nothing. *)
Definition silent {A : Type} (o : outcome A) : io A := mk_io EmptyString o.

(** [print(s)] and [print(s, end='')] *)
Definition print (s : string) : io unit := mk_io (s +:+ newline) (Ok tt).
Definition print_end (s : string) : io unit := mk_io s (Ok tt).

(** A [for] loop whose body prints. *)
Fixpoint io_for_each {X : Type} (body : X -> io unit) (xs : list X) : io unit :=
  match xs with
  | [] => mret tt
  | x :: xs => _ ← body x; io_for_each body xs
  end.

(* ===================================================================== *)
(** * class LedgerEntry                                                   *)
(* ===================================================================== *)

Module LedgerEntry.

Record t : Type := mk {
  date : datetime.date;
  name : cell;
  amount : float;
  balance : float;
}.

Definition to_dict (self : t) : pydict :=
  [ ("date"%string, PyDate (date self));
    ("name"%string, of_cell (name self));
    ("amount"%string, PyFloat (amount self));
    ("balance"%string, PyFloat (balance self)) ].

(** The data attributes of an entry, which [getattr(log, column)] reads by
    name. *)
Inductive attribute : Type := attr_date | attr_name | attr_amount | attr_balance.

Definition getattr (self : t) (column : attribute) : pyvalue :=
  match column with
  | attr_date => PyDate (date self)
  | attr_name => of_cell (name self)
  | attr_amount => PyFloat (amount self)
  | attr_balance => PyFloat (balance self)
  end.

End LedgerEntry.

(* ===================================================================== *)
(** * class RecurringTransaction                                          *)
(* ===================================================================== *)

(** [value == s] for a cell and a string literal. *)
Definition cell_eqb (value : cell) (s : string) : bool :=
  match value with Some v => String.eqb v s | None => false end.

Module RecurringTransaction.

(** The attributes of an instance.  The back reference [self.ledger] is
    only read for [ledger.current_day] in [is_due], which takes that day as
    an argument here. *)
Record t : Type := mk {
  name : cell;
  sign : string;
  transaction_type : cell;
  amount : float;
  frequency : relativedelta;
  next_date : date;
}.

Definition valid_freq : list string :=
  ["daily"; "weekly"; "biweekly"; "monthly"; "quarterly"; "semiyearly"; "yearly"]%string.

(** The [while today > date: date += self.frequency] loop of the
    [next_date] setter, with a bound on its iterations. *)
Fixpoint next_date_loop (fuel : nat) (today : date) (frequency : relativedelta)
  (date : datetime.date) : outcome datetime.date :=
  if datetime.ltb date today then
    match fuel with
    | O => OutOfFuel
    | S fuel => next_date_loop fuel today frequency (date +rd frequency)
    end
  else Ok date.

Section Setters.
Context {P : Platform}.

(** [@transaction_type.setter]: the stored kind and the sign. *)
Definition transaction_type_setter (self_name : cell) (value : cell)
  : outcome (cell * string) :=
  if negb (cell_in value ["income"; "expense"]%string) then
    exit_application
      ("Transaction_type for " +:+ str self_name +:+ " must be 'income' or 'expense'.") 1
  else if cell_eqb value "income" then Ok (value, "+"%string)
  else Ok (value, "-"%string).

(** [@amount.setter] *)
Definition amount_setter (self_name : cell) (self_transaction_type : cell)
  (value : cell) : outcome float :=
  match value with
  | None => Raise TypeError (* float(None) *)
  | Some s =>
    match py_float s with
    | None => exit_application
                ("Amount of '" +:+ s +:+ "' for " +:+ str self_name +:+ " is invalid.") 1
    | Some x =>
      let value := py_round2 x in
      if cell_eqb self_transaction_type "expense"
      then Ok (PrimFloat.opp (PrimFloat.abs value))
      else Ok (PrimFloat.abs value)
    end
  end.

(** [@frequency.setter].  Once the membership test has passed one of the
    cases matches; the last branch stands for the statement falling through
    with [_frequency] unset. *)
Definition frequency_setter (self_name : cell) (value : cell) : outcome relativedelta :=
  if negb (cell_in value valid_freq) then
    exit_application ("Invalid frequency for " +:+ str self_name +:+ ".") 1
  else if cell_eqb value "daily" then Ok (relativedelta.make 0 0 1 0)
  else if cell_eqb value "weekly" then Ok (relativedelta.make 0 0 0 1)
  else if cell_eqb value "biweekly" then Ok (relativedelta.make 0 0 0 2)
  else if cell_eqb value "monthly" then Ok (relativedelta.make 0 1 0 0)
  else if cell_eqb value "quarterly" then Ok (relativedelta.make 0 3 0 0)
  else if cell_eqb value "semiyearly" then Ok (relativedelta.make 0 6 0 0)
  else if cell_eqb value "yearly" then Ok (relativedelta.make 1 0 0 0)
  else Raise AttributeError.

(** [@next_date.setter].  A [date] that is not in the past is stored as it
    is; anything else goes to [date.fromisoformat], which raises [TypeError]
    on a value that is not a string and [ValueError] on a malformed string.
    The loop moves the date forward by at least one day per step, so the
    number of days between the parsed date and today bounds its length. *)
Definition next_date_setter (self_name : cell) (self_frequency : relativedelta)
  (value : pyvalue) : outcome date :=
  match value with
  | PyDate d =>
    if datetime.leb today d then Ok d else Raise TypeError
  | PyStr s =>
    match fromisoformat s with
    | None => exit_application
                ("next_date for " +:+ str self_name
                 +:+ " is in an invalid format. Use YYYY-MM-DD.") 1
    | Some date =>
      next_date_loop
        (Z.to_nat (datetime.toordinal today - datetime.toordinal date))
        today self_frequency date
    end
  | PyNone | PyFloat _ => Raise TypeError
  end.

(** [__init__(self, ledger, name, transaction_type, amount, frequency, next_date)] *)
Definition init (name transaction_type amount frequency next_date : cell) : outcome t :=
  '(self_transaction_type, self_sign) ← transaction_type_setter name transaction_type;
  self_amount ← amount_setter name self_transaction_type amount;
  self_frequency ← frequency_setter name frequency;
  self_next_date ← next_date_setter name self_frequency (of_cell next_date);
  mret (mk name self_sign self_transaction_type self_amount self_frequency self_next_date).

(** [self.next_date += self.frequency]: the sum is a [date] and goes through
    the setter. *)
Definition advance_next_date (self : t) : outcome t :=
  d ← next_date_setter (name self) (frequency self)
        (PyDate (next_date self +rd frequency self));
  mret (mk (name self) (sign self) (transaction_type self) (amount self)
          (frequency self) d).

End Setters.

(** [self.next_date == self.ledger.current_day] *)
Definition is_due (self : t) (ledger_current_day : date) : bool :=
  datetime.eqb (next_date self) ledger_current_day.

End RecurringTransaction.

(* ===================================================================== *)
(** * The input file as [csv.DictReader] presents it                      *)
(* ===================================================================== *)

(** The parsed lines of the file: the header line ([None] for an empty
    file) and the data lines. *)
Record csv_file : Type := mk_csv {
  header : option (list string);
  records : list (list string);
}.

(** One row of a [DictReader]: [dict(zip(fieldnames, row))], the fields the
    row is too short for set to [None].  (Surplus values go under the key
    [None], which nothing reads.) *)
Definition DictReader_row (fieldnames row : list string) : gmap string cell :=
  let d := foldl (fun d kv => <[kv.1 := Some kv.2]> d) ∅ (zip fieldnames row) in
  foldl (fun d k => <[k := None]> d) d (drop (length row) fieldnames).

(** The rows a [DictReader] yields: empty lines are skipped. *)
Definition DictReader_rows (f : csv_file) : list (gmap string cell) :=
  match header f with
  | Some fieldnames =>
    map (DictReader_row fieldnames)
      (List.filter (fun r => match r with [] => false | _ => true end) (records f))
  | None => []
  end.

(** [row[key]] *)
Definition getitem (row : gmap string cell) (key : string) : outcome cell :=
  match row !! key with
  | Some v => Ok v
  | None => Raise KeyError
  end.

(* ===================================================================== *)
(** * class Ledger                                                        *)
(* ===================================================================== *)

Definition DEFAULT_COLUMN_SIZE : Z := 12.
Definition COLUMN_BUFFER : Z := 4.

Definition REQUIRED_INPUT_FIELDS : gset string :=
  {[ "name"; "frequency"; "next_date"; "amount"; "transaction_type" ]}%string.

Module Ledger.

(** The attributes of an instance.  [csv_input] is the content of the file
    at the given path; [recurring_transactions] is the store of the
    transaction objects, and a reference to one of them is its position in
    that list. *)
Record t : Type := mk {
  csv_input : csv_file;
  days : Z;
  starting_balance : float;
  current_day : date;
  end_day : date;
  recurring_transactions : list RecurringTransaction.t;
  transaction_log : list LedgerEntry.t;
  current_balance : float;
}.

Section Methods.
Context {P : Platform}.

(** [@staticmethod validate_input_fields(input_csv)]: [set(None)] raises
    [TypeError] when the file has no header line. *)
Definition validate_input_fields (input_csv : csv_file) : outcome unit :=
  match header input_csv with
  | None => Raise TypeError
  | Some fieldnames =>
    let csv_fields : gset string := list_to_set fieldnames in
    if negb (bool_decide (csv_fields = REQUIRED_INPUT_FIELDS)) then
      exit_application "Error: Input file does not contain the correct fields." 1
    else Ok tt
  end.

(** The body of the [for row in transaction_csv] loop. *)
Definition import_row (row : gmap string cell) : outcome RecurringTransaction.t :=
  name ← getitem row "name";
  transaction_type ← getitem row "transaction_type";
  amount ← getitem row "amount";
  frequency ← getitem row "frequency";
  next_date ← getitem row "next_date";
  RecurringTransaction.init name transaction_type amount frequency next_date.

Definition import_transactions (csv_input : csv_file)
  : outcome (list RecurringTransaction.t) :=
  _ ← validate_input_fields csv_input;
  mapM import_row (DictReader_rows csv_input).

Definition record_starting_balance_to_ledger (self : t) : t :=
  let entry :=
    LedgerEntry.mk (current_day self) (Some "Opening Balance"%string)
      (starting_balance self) (starting_balance self) in
  mk (csv_input self) (days self) (starting_balance self) (current_day self)
    (end_day self) (recurring_transactions self)
    (transaction_log self ++ [entry]) (current_balance self).

(** [__init__(self, csv_input, days, starting_balance)] *)
Definition init (csv_input : csv_file) (days : Z) (starting_balance : float)
  : outcome t :=
  let current_day := today in
  let end_day := current_day +rd relativedelta.make 0 0 days 0 in
  recurring_transactions ← import_transactions csv_input;
  let current_balance := starting_balance in
  mret (record_starting_balance_to_ledger
          (mk csv_input days starting_balance current_day end_day
             recurring_transactions [] current_balance)).

(** [record_transaction(self, transaction)], the transaction given by its
    reference into the store.  A reference always points at an object; the
    [None] branch is what a position outside the list would do. *)
Definition record_transaction (self : t) (transaction : nat) : outcome t :=
  match recurring_transactions self !! transaction with
  | None => Raise IndexError
  | Some tx =>
    let current_balance :=
      PrimFloat.add (current_balance self) (RecurringTransaction.amount tx) in
    let entry :=
      LedgerEntry.mk (current_day self) (RecurringTransaction.name tx)
        (RecurringTransaction.amount tx) current_balance in
    let transaction_log := transaction_log self ++ [entry] in
    tx' ← RecurringTransaction.advance_next_date tx;
    mret (mk (csv_input self) (days self) (starting_balance self) (current_day self)
            (end_day self) (<[transaction := tx']> (recurring_transactions self))
            transaction_log current_balance)
  end.

(** The references, in the order of the store from position [i] on, to the
    transactions of [txs] that are due on [day]. *)
Fixpoint due_from (day : date) (i : nat) (txs : list RecurringTransaction.t)
  : list nat :=
  match txs with
  | [] => []
  | tx :: txs =>
    if RecurringTransaction.is_due tx day
    then i :: due_from day (S i) txs
    else due_from day (S i) txs
  end.

(** [[transaction for transaction in self.recurring_transactions
      if transaction.is_due()]] *)
Definition get_transactions_for_day (self : t) : list nat :=
  due_from (current_day self) 0%nat (recurring_transactions self).

Definition date_advance (self : t) : t :=
  mk (csv_input self) (days self) (starting_balance self)
    (current_day self +rd relativedelta.make 0 0 1 0)
    (end_day self) (recurring_transactions self) (transaction_log self)
    (current_balance self).

Definition is_active (self : t) : bool :=
  datetime.leb (current_day self) (end_day self).

(** One pass through the body of the [while] loop of [run_loop]. *)
Definition run_loop_body (self : t) : outcome t :=
  let transaction_list := get_transactions_for_day self in
  self ← for_each record_transaction transaction_list self;
  mret (date_advance self).

(** [run_loop(self)]: [while self.is_active(): ...], at most [fuel] passes. *)
Fixpoint run_loop (fuel : nat) (self : t) : outcome t :=
  if is_active self then
    match fuel with
    | O => OutOfFuel
    | S fuel => self ← run_loop_body self; run_loop fuel self
    end
  else Ok self.

(** [export_ledger(self, path)]: [ledger_data[0]] is evaluated before the
    [try] statement is entered. *)
Definition export_ledger (self : t) (path : string) : outcome unit :=
  let ledger_data := map LedgerEntry.to_dict (transaction_log self) in
  match ledger_data with
  | [] => Raise IndexError
  | first :: _ =>
    let field_names := keys first in
    match write_csv path field_names ledger_data with
    | Written => Ok tt
    | FileNotFoundError =>
      exit_application "Unable to write to the export location" 1
    | OtherException e =>
      exit_application ("An unexpected error occurred: " +:+ e) 1
    end
  end.

Context {R : Rendering}.

(** [get_max_column_size(self, column)] *)
Definition get_max_column_size (self : t) (column : LedgerEntry.attribute) : Z :=
  let str_lengths : gset Z :=
    foldl (fun str_lengths log =>
             let attr_value := py_str (LedgerEntry.getattr log column) in
             {[ len attr_value ]} ∪ str_lengths)
      ∅ (transaction_log self) in
  py_max (elements str_lengths) DEFAULT_COLUMN_SIZE.

(** The body of the [for] loop of [print_ledger]: the four cells of one
    entry. *)
Definition print_ledger_body (max_date max_name max_amount max_balance : Z)
  (log : LedgerEntry.t) : io unit :=
  _ ← print_end (ljust (strftime_ymd (LedgerEntry.date log)) max_date);
  name ← silent (format_left (LedgerEntry.name log) max_name);
  _ ← print_end name;
  _ ← print_end ("$" +:+ rjust (format_comma_2f (LedgerEntry.amount log)) max_amount);
  print ("  $" +:+ rjust (format_comma_2f (LedgerEntry.balance log)) max_balance).

(** [print_ledger(self)] *)
Definition print_ledger (self : t) : io unit :=
  let max_date := 10 + COLUMN_BUFFER in
  let max_name := get_max_column_size self LedgerEntry.attr_name + COLUMN_BUFFER in
  let max_amount := get_max_column_size self LedgerEntry.attr_amount + COLUMN_BUFFER in
  let max_balance := get_max_column_size self LedgerEntry.attr_balance + COLUMN_BUFFER in
  let header_date := ljust "Date" max_date in
  let header_name := ljust "Name" max_name in
  let header_amount := rjust "Amount" (max_amount + 1) in
  let header_balance := rjust "Balance" (max_balance + 3) in
  let header := header_date +:+ header_name +:+ header_amount +:+ header_balance in
  let separator := mul "-" (len header) in
  _ ← print header;
  _ ← print separator;
  io_for_each (print_ledger_body max_date max_name max_amount max_balance)
    (transaction_log self).

End Methods.

End Ledger.

(** The simulation part of [main]: [ledger = Ledger(...)] followed by
    [ledger.run_loop()]. *)
Definition simulate {P : Platform} (fuel : nat) (csv_input : csv_file) (days : Z)
  (starting_balance : float) : outcome Ledger.t :=
  ledger ← Ledger.init csv_input days starting_balance;
  Ledger.run_loop fuel ledger.

(* ===================================================================== *)
(** * The command line                                                    *)
(* ===================================================================== *)

(** The arguments as [parser.parse_args()] returns them: [--days] is an
    [int], [--start-balance] a [float], and [--export] is [None] when it is
    not given. *)
Module Namespace.
Record t : Type := mk {
  input : string;
  days : Z;
  start_balance : float;
  export : option string;
}.
End Namespace.

(** The files the program reads. *)
Class Files : Type := {
  (** [os.path.isfile(path)] *)
  isfile : string -> bool;
  (** The lines of the file at [path], as [csv.reader] parses them once
      [open(path, newline='')] has opened it. *)
  read_csv : string -> csv_file;
}.

(** [main()], from the parsed arguments on.  [run_loop] makes a pass for
    today and one for each of the [days] days after it, which bounds it. *)
Definition main {P : Platform} {R : Rendering} {F : Files} (args : Namespace.t)
  : io unit :=
  if negb (isfile (Namespace.input args)) then
    silent (exit_application
              ("Error: Input file '" +:+ Namespace.input args +:+ "' not found.") 1)
  else if negb (Namespace.days args >? 0) then
    silent (exit_application "Error: Forecast days must be greater than 0." 1)
  else
    ledger ← silent (Ledger.init (read_csv (Namespace.input args)) (Namespace.days args)
                       (Namespace.start_balance args));
    ledger ← silent (Ledger.run_loop (Z.to_nat (Namespace.days args + 1)) ledger);
    _ ← Ledger.print_ledger ledger;
    match Namespace.export args with
    | Some path =>
      if negb (String.eqb path EmptyString)
      then silent (Ledger.export_ledger ledger path)
      else mret tt
    | None => mret tt
    end.

(* ===================================================================== *)
(** * A sample interpreter, for running the model on concrete inputs      *)
(* ===================================================================== *)

Module Sample.

(** [_check_date_fields] as a test. *)
Definition valid_b (d : date) : bool :=
  (1 <=? datetime.year d)
  && (1 <=? datetime.month d) && (datetime.month d <=? 12)
  && (1 <=? datetime.day d)
  && (datetime.day d <=? datetime.days_in_month (datetime.year d) (datetime.month d)).

Definition digit (c : ascii) : option Z :=
  let n := Z.of_nat (nat_of_ascii c) - 48 in
  if (0 <=? n) && (n <=? 9) then Some n else None.

Fixpoint number (acc : Z) (cs : list ascii) : option Z :=
  match cs with
  | [] => Some acc
  | c :: cs => n ← digit c; number (acc * 10 + n) cs
  end.

(** [date.fromisoformat] on the format every version accepts, YYYY-MM-DD. *)
Definition parse_iso (s : string) : option date :=
  match list_ascii_of_string s with
  | [y1; y2; y3; y4; h1; m1; m2; h2; d1; d2] =>
    if Ascii.eqb h1 "-" && Ascii.eqb h2 "-" then
      y ← number 0 [y1; y2; y3; y4];
      m ← number 0 [m1; m2];
      d ← number 0 [d1; d2];
      let r := datetime.mkdate y m d in
      if valid_b r then Some r else None
    else None
  | _ => None
  end.

(** [float] on the amounts the sample inputs use. *)
Definition parse_float (s : string) : option float :=
  if String.eqb s "50" then Some 50%float
  else if String.eqb s "1200" then Some 1200%float
  else if String.eqb s "19.75" then Some 19.75%float
  else None.

(** A run on Monday 29 January 2024.  [round(x, 2)] leaves the amounts above
    as they are, and the export location is writable. *)
#[global] Instance platform : Platform := {|
  today := datetime.mkdate 2024 1 29;
  fromisoformat := parse_iso;
  py_float := parse_float;
  py_round2 := fun x => x;
  write_csv := fun _ _ _ => Written;
|}.

Definition fields : list string :=
  ["name"; "frequency"; "next_date"; "amount"; "transaction_type"]%string.

(** Starting balance 1000.00, horizon 5 days, one weekly expense of 50 due
    today. *)
Definition weekly_expense : csv_file :=
  mk_csv (Some fields) [["Gym"; "weekly"; "2024-01-29"; "50"; "expense"]%string].

(** Two transactions that are both due on day 3 of the run, A before B. *)
Definition two_on_day_3 : csv_file :=
  mk_csv (Some fields)
    [ ["A"; "monthly"; "2024-01-31"; "1200"; "income"]%string;
      ["B"; "weekly"; "2024-01-17"; "19.75"; "expense"]%string ].

(** A header and no transaction. *)
Definition no_transactions : csv_file := mk_csv (Some fields) [].

(** The header lacks [transaction_type]. *)
Definition missing_field : csv_file :=
  mk_csv (Some ["name"; "frequency"; "next_date"; "amount"]%string)
    [["Gym"; "weekly"; "2024-01-29"; "50"]%string].

(** A ledger object whose ledger sequence has been emptied by hand; the
    constructor never leaves one. *)
Definition emptied_ledger : Ledger.t :=
  Ledger.mk no_transactions 5 1000%float (datetime.mkdate 2024 1 29)
    (datetime.mkdate 2024 2 3) [] [] 1000%float.

(** The second line lacks its last value, the amount. *)
Definition short_line : csv_file :=
  mk_csv (Some ["transaction_type"; "name"; "frequency"; "next_date"; "amount"]%string)
    [ ["expense"; "Gym"; "weekly"; "2024-01-29"; "50"]%string;
      ["expense"; "Rent"; "monthly"; "2024-02-01"]%string ].

(** The header has [name] last and the line lacks its last value. *)
Definition nameless_line : csv_file :=
  mk_csv (Some ["transaction_type"; "frequency"; "next_date"; "amount"; "name"]%string)
    [ ["expense"; "weekly"; "2024-01-29"; "50"]%string ].

(** [strftime('%Y-%m-%d')] and [str] of a date with a year of four digits. *)
Definition digits (width : nat) (n : Z) : string :=
  string_of_list_ascii
    (map (fun i => ascii_of_nat (48 + Z.to_nat ((n / 10 ^ Z.of_nat i) mod 10)))
       (rev (seq 0 width))).

Definition isoformat (d : date) : string :=
  digits 4 (datetime.year d) +:+ "-" +:+ digits 2 (datetime.month d)
  +:+ "-" +:+ digits 2 (datetime.day d).

(** [str(x)] and [format(x, ',.2f')] on the amounts and balances of the
    sample runs. *)
Definition float_texts : list (float * (string * string)) :=
  [ (1000%float, ("1000.0", "1,000.00")); (950%float, ("950.0", "950.00"));
    ((-50)%float, ("-50.0", "-50.00")); (1200%float, ("1200.0", "1,200.00"));
    (2200%float, ("2200.0", "2,200.00")); ((-19.75)%float, ("-19.75", "-19.75"));
    (2180.25%float, ("2180.25", "2,180.25")); (2160.5%float, ("2160.5", "2,160.50")) ]%string.

Definition float_text (x : float) : string * string :=
  match List.find (fun entry => PrimFloat.eqb (fst entry) x) float_texts with
  | Some entry => snd entry
  | None => ("0.0", "0.00")%string
  end.

#[global] Instance rendering : Rendering := {|
  float_str := fun x => fst (float_text x);
  date_str := isoformat;
  strftime_ymd := isoformat;
  format_comma_2f := fun x => snd (float_text x);
|}.

(** The input files of the sample runs. *)
#[global] Instance files : Files := {|
  isfile := fun path =>
    String.eqb path "gym.csv" || String.eqb path "ab.csv" || String.eqb path "short.csv"
    || String.eqb path "nameless.csv";
  read_csv := fun path =>
    if String.eqb path "gym.csv" then weekly_expense
    else if String.eqb path "ab.csv" then two_on_day_3
    else if String.eqb path "short.csv" then short_line
    else if String.eqb path "nameless.csv" then nameless_line
    else no_transactions;
|}.

End Sample.

(* ===================================================================== *)
(** * What the specification says, in its own words                       *)
(* ===================================================================== *)

(** The balances and amounts of a ledger, as lists. *)
Definition balances (log : list LedgerEntry.t) : list float :=
  map LedgerEntry.balance log.
Definition amounts (log : list LedgerEntry.t) : list float :=
  map LedgerEntry.amount log.

(** The sum of a list of amounts on top of a balance, added from left to
    right as the program adds them. *)
Definition add_all (start : float) (xs : list float) : float :=
  foldl PrimFloat.add start xs.

(** The running balance as section 8 words it: the balance of entry [k]
    is the starting balance plus the amounts of the entries 1 to [k], the
    Opening Balance entry among them.  (Entry [k] of the specification
    stands at position [k - 1] of the list.) *)
Definition balance_is_start_plus_amounts_1_to_k (start : float)
  (log : list LedgerEntry.t) : Prop :=
  forall k e, log !! k = Some e ->
    LedgerEntry.balance e = add_all start (take (S k) (amounts log)).

(** The same with the Opening Balance entry left out of the sum: the
    starting balance plus the amounts of the entries 2 to [k]. *)
Definition balance_is_start_plus_amounts_2_to_k (start : float)
  (log : list LedgerEntry.t) : Prop :=
  forall k e, log !! k = Some e ->
    LedgerEntry.balance e = add_all start (drop 1 (take (S k) (amounts log))).

(** Export of an empty ledger as sections 4.3 and 6 word it: a fatal
    failure through one diagnostic line on standard output and the exit
    status 1. *)
Definition export_of_empty_ledger_prints_and_exits {P : Platform} : Prop :=
  forall (self : Ledger.t) (path : string),
    Ledger.transaction_log self = [] ->
    exists message, Ledger.export_ledger self path = Exit message 1.

(** How loading fails on a wrong field set: the diagnostic line of
    [validate_input_fields], or the [TypeError] of [set(None)] when the file
    has no header line at all. *)
Definition field_failure {A : Type} (csv : csv_file) : outcome A :=
  match header csv with
  | Some _ => Exit "Error: Input file does not contain the correct fields." 1
  | None => Raise TypeError
  end.

(** The calendar steps of the specification.  A step of days is a sum of
    days; a step of [n] months lands on the same day of the month [n]
    months later, or on the last day of that month when it is shorter; a
    step of [n] years does the same [n] years later. *)
Definition plus_days (n : Z) (d : date) : date := datetime.add_days d n.

Definition plus_months (n : Z) (d : date) : date :=
  let k := datetime.month d - 1 + n in
  let y := datetime.year d + k / 12 in
  let m := k mod 12 + 1 in
  datetime.mkdate y m (Z.min (datetime.day d) (datetime.days_in_month y m)).

Definition plus_years (n : Z) (d : date) : date :=
  let y := datetime.year d + n in
  datetime.mkdate y (datetime.month d)
    (Z.min (datetime.day d) (datetime.days_in_month y (datetime.month d))).

(** The mapping of section 4.1: the step of each frequency category, and
    nothing for any other word. *)
Definition spec_step (category : string) : option (date -> date) :=
  if String.eqb category "daily" then Some (plus_days 1)
  else if String.eqb category "weekly" then Some (plus_days 7)
  else if String.eqb category "biweekly" then Some (plus_days 14)
  else if String.eqb category "monthly" then Some (plus_months 1)
  else if String.eqb category "quarterly" then Some (plus_months 3)
  else if String.eqb category "semiyearly" then Some (plus_months 6)
  else if String.eqb category "yearly" then Some (plus_years 1)
  else None.

(* ===================================================================== *)
(** * Notions the statements and proofs use                               *)
(* ===================================================================== *)

(** The number of days of a year. *)
Definition year_length (y : Z) : Z := if datetime.is_leap y then 366 else 365.

(** The order of dates as a proposition: [datetime.ltb] spelled out. *)
Definition date_lt (a b : date) : Prop :=
  datetime.year a < datetime.year b
  \/ (datetime.year a = datetime.year b
      /\ (datetime.month a < datetime.month b
          \/ (datetime.month a = datetime.month b /\ datetime.day a < datetime.day b))).

Definition date_le (a b : date) : Prop := date_lt a b \/ a = b.

(** The month and day that [_ord2ymd] computes from the zero-based day of
    the year. *)
Definition month_day (leapyear : bool) (n : Z) : Z * Z :=
  let month := Z.shiftr (n + 50) 5 in
  let preceding :=
    datetime.DAYS_BEFORE_MONTH month + (if (month >? 2) && leapyear then 1 else 0) in
  if preceding >? n then
    let month := month - 1 in
    let preceding :=
      preceding
      - (datetime.DAYS_IN_MONTH month + (if (month =? 2) && leapyear then 1 else 0)) in
    (month, n - preceding + 1)
  else (month, n - preceding + 1).

(** The test that [month_day] returns the date whose day of the year is
    [n + 1]. *)
Definition month_day_ok (leapyear : bool) (n : Z) : bool :=
  let '(m, d) := month_day leapyear n in
  (1 <=? m) && (m <=? 12) && (1 <=? d)
  && (d <=? (if (m =? 2) && leapyear then 29 else datetime.DAYS_IN_MONTH m))
  && (datetime.DAYS_BEFORE_MONTH m + (if (m >? 2) && leapyear then 1 else 0) + d =? n + 1).

(** A recurrence step: no component is negative, the months stay below a
    year, and the step is not empty. *)
Definition is_step (r : relativedelta) : Prop :=
  0 <= relativedelta.years r /\ 0 <= relativedelta.months r <= 11
  /\ 0 <= relativedelta.days r
  /\ 0 < relativedelta.years r + relativedelta.months r + relativedelta.days r.

(** [n] recurrence steps from a date. *)
Definition steps (n : nat) (r : relativedelta) (d : date) : date :=
  Nat.iter n (fun d => d +rd r) d.

(** The transaction once it has fired: its next date one step further. *)
Definition advanced (tx : RecurringTransaction.t) : RecurringTransaction.t :=
  RecurringTransaction.mk (RecurringTransaction.name tx) (RecurringTransaction.sign tx)
    (RecurringTransaction.transaction_type tx) (RecurringTransaction.amount tx)
    (RecurringTransaction.frequency tx)
    (RecurringTransaction.next_date tx +rd RecurringTransaction.frequency tx).

(** A transaction at the end of a simulated day. *)
Definition after_day (day : date) (tx : RecurringTransaction.t) : RecurringTransaction.t :=
  if RecurringTransaction.is_due tx day then advanced tx else tx.

(** The transactions due on a day, in the order of the collection. *)
Definition due_on (day : date) (txs : list RecurringTransaction.t)
  : list RecurringTransaction.t :=
  List.filter (fun tx => RecurringTransaction.is_due tx day) txs.

(** The entries that posting a list of transactions on a day appends, one
    after the other, each on top of the balance the one before it left. *)
Fixpoint post_all (balance : float) (day : date) (due : list RecurringTransaction.t)
  : list LedgerEntry.t :=
  match due with
  | [] => []
  | tx :: due =>
    let balance := PrimFloat.add balance (RecurringTransaction.amount tx) in
    LedgerEntry.mk day (RecurringTransaction.name tx) (RecurringTransaction.amount tx)
      balance
    :: post_all balance day due
  end.

(** The balance after them. *)
Definition post_balance (balance : float) (due : list RecurringTransaction.t) : float :=
  foldl (fun b tx => PrimFloat.add b (RecurringTransaction.amount tx)) balance due.

(** The ledger after one pass through the body of the loop, in closed
    form. *)
Definition after_pass (self : Ledger.t) : Ledger.t :=
  let day := Ledger.current_day self in
  let due := due_on day (Ledger.recurring_transactions self) in
  Ledger.date_advance
    (Ledger.mk (Ledger.csv_input self) (Ledger.days self) (Ledger.starting_balance self)
       day (Ledger.end_day self)
       (map (after_day day) (Ledger.recurring_transactions self))
       (Ledger.transaction_log self ++ post_all (Ledger.current_balance self) day due)
       (post_balance (Ledger.current_balance self) due)).

(** [n] passes through the body of the loop, whatever [is_active] says. *)
Fixpoint passes {P : Platform} (n : nat) (self : Ledger.t) : outcome Ledger.t :=
  match n with
  | O => Ok self
  | S n => self ← Ledger.run_loop_body self; passes n self
  end.

(** The states of the ledger at the start of each pass of [run_loop] from
    [l0], and after the last one. *)
Inductive reaches {P : Platform} (l0 : Ledger.t) : Ledger.t -> Prop :=
| reaches_start : reaches l0 l0
| reaches_pass l l' :
    reaches l0 l -> Ledger.is_active l = true -> Ledger.run_loop_body l = Ok l' ->
    reaches l0 l'.

(** A transaction as the loop wants it on [day]: its dates are dates of the
    calendar, its frequency is a recurrence step, and it is not overdue. *)
Definition tx_ok (day : date) (tx : RecurringTransaction.t) : Prop :=
  datetime.valid (RecurringTransaction.next_date tx)
  /\ is_step (RecurringTransaction.frequency tx)
  /\ date_le day (RecurringTransaction.next_date tx).

Definition ledger_ok {P : Platform} (self : Ledger.t) : Prop :=
  datetime.valid (Ledger.current_day self)
  /\ date_le today (Ledger.current_day self)
  /\ Forall (tx_ok (Ledger.current_day self)) (Ledger.recurring_transactions self).

(** The Opening Balance entry. *)
Definition opening_entry (day : date) (starting_balance : float) : LedgerEntry.t :=
  LedgerEntry.mk day (Some "Opening Balance"%string) starting_balance starting_balance.

(** Step consistency of a ledger: the first entry carries the starting
    balance as its amount and as its balance, and every later entry carries
    the balance of the entry before it plus its own amount. *)
Definition step_consistent (start : float) (log : list LedgerEntry.t) : Prop :=
  (forall e, log !! 0%nat = Some e ->
     LedgerEntry.balance e = start /\ LedgerEntry.amount e = start)
  /\ (forall k e e', log !! k = Some e -> log !! S k = Some e' ->
       LedgerEntry.balance e'
       = PrimFloat.add (LedgerEntry.balance e) (LedgerEntry.amount e')).

(** The running balance of the ledger object is the balance of the last
    entry. *)
Definition balance_in_step (self : Ledger.t) : Prop :=
  last (balances (Ledger.transaction_log self)) = Some (Ledger.current_balance self).

(** What holds of the ledger object all along a run that started with the
    balance [start]. *)
Definition log_ok {P : Platform} (start : float) (self : Ledger.t) : Prop :=
  Ledger.starting_balance self = start
  /\ (exists rest, Ledger.transaction_log self = opening_entry today start :: rest)
  /\ step_consistent start (Ledger.transaction_log self)
  /\ balance_in_step self.

(** Two states of one transaction: all but the next date agree. *)
Definition same_definition (a b : RecurringTransaction.t) : Prop :=
  RecurringTransaction.name a = RecurringTransaction.name b
  /\ RecurringTransaction.sign a = RecurringTransaction.sign b
  /\ RecurringTransaction.transaction_type a = RecurringTransaction.transaction_type b
  /\ RecurringTransaction.amount a = RecurringTransaction.amount b
  /\ RecurringTransaction.frequency a = RecurringTransaction.frequency b.

(** The steps the frequency setter can store, in the order of its cases. *)
Definition seven_steps : list relativedelta :=
  [ relativedelta.make 0 0 1 0; relativedelta.make 0 0 0 1; relativedelta.make 0 0 0 2;
    relativedelta.make 0 1 0 0; relativedelta.make 0 3 0 0; relativedelta.make 0 6 0 0;
    relativedelta.make 1 0 0 0 ].

(** The program ended through [exit_application] with the status 1. *)
Definition exits_with_status_1 {A : Type} (o : outcome A) : Prop :=
  exists message, o = Exit message 1.

(** A ledger sequence in chronological order: no entry is dated before an
    entry that stands before it. *)
Definition chronological (log : list LedgerEntry.t) : Prop :=
  forall i j e e', (i <= j)%nat -> log !! i = Some e -> log !! j = Some e' ->
    date_le (LedgerEntry.date e) (LedgerEntry.date e').

(** [k] calls of [advance_next_date] in a row. *)
Fixpoint advance_times {P : Platform} (k : nat) (tx : RecurringTransaction.t)
  : outcome RecurringTransaction.t :=
  match k with
  | O => Ok tx
  | S k => tx ← RecurringTransaction.advance_next_date tx; advance_times k tx
  end.

(** Case analysis on a month known to lie between 1 and 12. *)
Ltac month_cases m :=
  let H := fresh "Hm" in
  assert (H : m = 1 \/ m = 2 \/ m = 3 \/ m = 4 \/ m = 5 \/ m = 6 \/ m = 7 \/
              m = 8 \/ m = 9 \/ m = 10 \/ m = 11 \/ m = 12) by lia;
  repeat (destruct H as [H | H]; [subst m | ]); [.. | subst m].

(* ===================================================================== *)
(** * The calendar                                                        *)
(* ===================================================================== *)

Section Calendar.
Import datetime.

Lemma is_leap_spec y :
  is_leap y = true <-> (y mod 4 = 0 /\ (y mod 100 <> 0 \/ y mod 400 = 0)).
Proof.
  unfold is_leap.
  rewrite andb_true_iff, orb_true_iff, negb_true_iff, !Z.eqb_eq, Z.eqb_neq. tauto.
Qed.

Lemma days_before_year_succ y :
  days_before_year (y + 1) = days_before_year y + year_length y.
Proof.
  unfold days_before_year, year_length.
  replace (y + 1 - 1) with (y - 1 + 1) by lia.
  destruct (is_leap y) eqn:E.
  - apply is_leap_spec in E. Z.div_mod_to_equations. lia.
  - assert (~ (y mod 4 = 0 /\ (y mod 100 <> 0 \/ y mod 400 = 0))) as N.
    { rewrite <- is_leap_spec. congruence. }
    Z.div_mod_to_equations. lia.
Qed.

Lemma days_before_year_mono y y' :
  y <= y' -> days_before_year y <= days_before_year y'.
Proof. intros H. unfold days_before_year. Z.div_mod_to_equations. lia. Qed.

Lemma days_before_year_lt y y' :
  y < y' -> days_before_year y + year_length y <= days_before_year y'.
Proof.
  intros H. rewrite <- days_before_year_succ. apply days_before_year_mono. lia.
Qed.

Lemma day_of_year_bounds y m d :
  1 <= m <= 12 -> 1 <= d <= days_in_month y m ->
  1 <= days_before_month y m + d <= year_length y.
Proof.
  intros Hm Hd. unfold days_before_month, days_in_month, year_length in *.
  destruct (is_leap y); month_cases m; simpl in *; lia.
Qed.

Lemma day_of_year_lt y m d m' d' :
  1 <= m <= 12 -> 1 <= d <= days_in_month y m ->
  1 <= m' <= 12 -> 1 <= d' <= days_in_month y m' ->
  m < m' \/ (m = m' /\ d < d') ->
  days_before_month y m + d < days_before_month y m' + d'.
Proof.
  intros Hm Hd Hm' Hd' Hlt. unfold days_before_month, days_in_month in *.
  destruct (is_leap y); month_cases m; simpl in *; month_cases m'; simpl in *; lia.
Qed.

Lemma ltb_lt a b : ltb a b = true <-> date_lt a b.
Proof.
  unfold ltb, date_lt.
  rewrite !orb_true_iff, !andb_true_iff, !orb_true_iff, !andb_true_iff,
    !Z.ltb_lt, !Z.eqb_eq.
  tauto.
Qed.

Lemma eqb_eq a b : eqb a b = true <-> a = b.
Proof.
  unfold eqb. rewrite !andb_true_iff, !Z.eqb_eq. destruct a, b; simpl. split.
  - intros [[-> ->] ->]. reflexivity.
  - intros [= -> -> ->]. auto.
Qed.

Lemma leb_le a b : leb a b = true <-> date_le a b.
Proof. unfold leb, date_le. rewrite orb_true_iff, ltb_lt, eqb_eq. tauto. Qed.

Lemma date_lt_trichotomy a b : date_lt a b \/ a = b \/ date_lt b a.
Proof.
  unfold date_lt. destruct a as [y m d], b as [y' m' d']; simpl.
  destruct (Z.lt_trichotomy y y') as [|[|]]; [lia| |lia].
  destruct (Z.lt_trichotomy m m') as [|[|]]; [lia| |lia].
  destruct (Z.lt_trichotomy d d') as [|[|]]; [lia| |lia].
  right; left; congruence.
Qed.

(** The ordinal grows with the date. *)
Lemma toordinal_lt a b :
  valid a -> valid b -> date_lt a b -> toordinal a < toordinal b.
Proof.
  intros (Hya & Hma & Hda) (Hyb & Hmb & Hdb) Hlt. unfold toordinal, ymd2ord.
  destruct Hlt as [Hy | [Hy Hlt]].
  - pose proof (days_before_year_lt _ _ Hy).
    pose proof (day_of_year_bounds _ _ _ Hma Hda).
    pose proof (day_of_year_bounds _ _ _ Hmb Hdb). lia.
  - rewrite <- Hy in *.
    pose proof (day_of_year_lt (year a) _ _ _ _ Hma Hda Hmb Hdb Hlt). lia.
Qed.

Lemma toordinal_inj a b : valid a -> valid b -> toordinal a = toordinal b -> a = b.
Proof.
  intros Ha Hb E. destruct (date_lt_trichotomy a b) as [H | [H | H]]; auto.
  - pose proof (toordinal_lt _ _ Ha Hb H). lia.
  - pose proof (toordinal_lt _ _ Hb Ha H). lia.
Qed.

Lemma toordinal_pos a : valid a -> 1 <= toordinal a.
Proof.
  intros (Hy & Hm & Hd). unfold toordinal, ymd2ord.
  pose proof (day_of_year_bounds _ _ _ Hm Hd).
  pose proof (days_before_year_mono 1 (year a) Hy).
  change (days_before_year 1) with 0 in *. lia.
Qed.

(** The order of valid dates is the order of their ordinals. *)
Lemma date_lt_ordinal a b :
  valid a -> valid b -> (date_lt a b <-> toordinal a < toordinal b).
Proof.
  intros Ha Hb. split; [apply toordinal_lt; assumption|].
  intros H. destruct (date_lt_trichotomy a b) as [L | [-> | L]]; auto; [lia|].
  pose proof (toordinal_lt _ _ Hb Ha L). lia.
Qed.

Lemma date_le_ordinal a b :
  valid a -> valid b -> (date_le a b <-> toordinal a <= toordinal b).
Proof.
  intros Ha Hb. unfold date_le. rewrite (date_lt_ordinal a b Ha Hb). split.
  - intros [H | ->]; lia.
  - intros H. destruct (Z.eq_dec (toordinal a) (toordinal b)) as [E | N].
    + right. apply toordinal_inj; assumption.
    + left. lia.
Qed.

(** Every day of a year, by exhaustion. *)
Lemma month_day_ok_all (leapyear : bool) n :
  0 <= n < (if leapyear then 366 else 365) -> month_day_ok leapyear n = true.
Proof.
  intros H.
  assert (forallb (fun k => month_day_ok leapyear (Z.of_nat k))
            (seq 0 (if leapyear then 366 else 365)) = true) as A.
  { destruct leapyear; vm_compute; reflexivity. }
  rewrite forallb_forall in A. specialize (A (Z.to_nat n)).
  rewrite Z2Nat.id in A by lia. apply A. apply in_seq. destruct leapyear; lia.
Qed.

Lemma ord2ymd_unfold n :
  ord2ymd n =
  let n0 := n - 1 in
  let q400 := n0 / 146097 in let r400 := n0 mod 146097 in
  let q100 := r400 / 36524 in let r100 := r400 mod 36524 in
  let q4 := r100 / 1461 in let r4 := r100 mod 1461 in
  let q1 := r4 / 365 in let r1 := r4 mod 365 in
  let y := q400 * 400 + 1 + q100 * 100 + q4 * 4 + q1 in
  if (q1 =? 4) || (q100 =? 4) then (y - 1, 12, 31)
  else
    let '(m, d) := month_day ((q1 =? 3) && (negb (q4 =? 24) || (q100 =? 3))) r1 in
    (y, m, d).
Proof.
  unfold ord2ymd, month_day, DI400Y, DI100Y, DI4Y. cbv zeta.
  destruct (_ || _); [reflexivity|].
  destruct (_ >? _); reflexivity.
Qed.

(** [_ord2ymd] inverts [_ymd2ord] and returns a date of the calendar. *)
Lemma ord2ymd_spec n :
  1 <= n ->
  let '(y, m, d) := ord2ymd n in
  1 <= y /\ 1 <= m <= 12 /\ 1 <= d <= days_in_month y m /\ ymd2ord y m d = n.
Proof.
  intros Hn. rewrite ord2ymd_unfold. cbv zeta.
  remember (n - 1) as n0 eqn:En0.
  remember (n0 / 146097) as q400 eqn:Eq400.
  remember (n0 mod 146097) as r400 eqn:Er400.
  remember (r400 / 36524) as q100 eqn:Eq100.
  remember (r400 mod 36524) as r100 eqn:Er100.
  remember (r100 / 1461) as q4 eqn:Eq4.
  remember (r100 mod 1461) as r4 eqn:Er4.
  remember (r4 / 365) as q1 eqn:Eq1.
  remember (r4 mod 365) as r1 eqn:Er1.
  assert (H400 : n0 = 146097 * q400 + r400 /\ 0 <= r400 < 146097 /\ 0 <= q400).
  { subst q400 r400. Z.div_mod_to_equations. lia. }
  assert (H100 : r400 = 36524 * q100 + r100 /\ 0 <= r100 < 36524 /\ 0 <= q100 <= 4).
  { subst q100 r100. Z.div_mod_to_equations. lia. }
  assert (H4 : r100 = 1461 * q4 + r4 /\ 0 <= r4 < 1461 /\ 0 <= q4 <= 24).
  { subst q4 r4. Z.div_mod_to_equations. lia. }
  assert (H1 : r4 = 365 * q1 + r1 /\ 0 <= r1 < 365 /\ 0 <= q1 <= 4).
  { subst q1 r1. Z.div_mod_to_equations. lia. }
  clear Eq400 Er400 Eq100 Er100 Eq4 Er4 Eq1 Er1.
  destruct ((q1 =? 4) || (q100 =? 4)) eqn:Esp.
  - (* the last day of a leap year *)
    apply orb_true_iff in Esp. rewrite !Z.eqb_eq in Esp.
    set (y := q400 * 400 + 1 + q100 * 100 + q4 * 4 + q1 - 1).
    assert (Hleap : is_leap y = true).
    { apply is_leap_spec. subst y. destruct Esp as [E | E]; Z.div_mod_to_equations; lia. }
    assert (Hdby : days_before_year y = n - 366).
    { unfold days_before_year. subst y.
      destruct Esp as [E | E]; Z.div_mod_to_equations; lia. }
    unfold ymd2ord, days_in_month, days_before_month. rewrite Hleap, Hdby. simpl.
    subst y. lia.
  - apply orb_false_iff in Esp. rewrite !Z.eqb_neq in Esp. destruct Esp as [Eq1 Eq100].
    set (y := q400 * 400 + 1 + q100 * 100 + q4 * 4 + q1).
    set (leapyear := (q1 =? 3) && (negb (q4 =? 24) || (q100 =? 3))).
    assert (Hleap : is_leap y = leapyear).
    { apply eq_true_iff_eq. rewrite is_leap_spec. unfold leapyear.
      rewrite andb_true_iff, orb_true_iff, negb_true_iff, !Z.eqb_eq, Z.eqb_neq.
      subst y. Z.div_mod_to_equations. lia. }
    assert (Hdby : days_before_year y = n0 - r1).
    { unfold days_before_year. subst y. Z.div_mod_to_equations. lia. }
    assert (Hr1 : 0 <= r1 < (if leapyear then 366 else 365)) by (destruct leapyear; lia).
    pose proof (month_day_ok_all leapyear r1 Hr1) as Hok. unfold month_day_ok in Hok.
    destruct (month_day leapyear r1) as [m d].
    rewrite !andb_true_iff, !Z.leb_le, Z.eqb_eq in Hok.
    unfold ymd2ord, days_in_month, days_before_month. rewrite Hleap, Hdby.
    subst y. lia.
Qed.

Lemma fromordinal_valid n : 1 <= n -> valid (fromordinal n).
Proof.
  intros Hn. pose proof (ord2ymd_spec n Hn) as H. unfold fromordinal, valid.
  destruct (ord2ymd n) as [[y m] d]. simpl. tauto.
Qed.

Lemma toordinal_fromordinal n : 1 <= n -> toordinal (fromordinal n) = n.
Proof.
  intros Hn. pose proof (ord2ymd_spec n Hn) as H. unfold fromordinal, toordinal.
  destruct (ord2ymd n) as [[y m] d]. simpl. tauto.
Qed.

Lemma fromordinal_toordinal d : valid d -> fromordinal (toordinal d) = d.
Proof.
  intros Hd. pose proof (toordinal_pos d Hd) as Hp.
  apply toordinal_inj; auto using fromordinal_valid, toordinal_fromordinal.
Qed.

(** Adding days moves the ordinal by as much. *)
Lemma add_days_valid d n : valid d -> 0 <= n -> valid (add_days d n).
Proof.
  intros Hd Hn. apply fromordinal_valid. pose proof (toordinal_pos d Hd). lia.
Qed.

Lemma toordinal_add_days d n :
  valid d -> 0 <= n -> toordinal (add_days d n) = toordinal d + n.
Proof.
  intros Hd Hn. apply toordinal_fromordinal. pose proof (toordinal_pos d Hd). lia.
Qed.

Lemma add_days_0 d : valid d -> add_days d 0 = d.
Proof. intros Hd. unfold add_days. rewrite Z.add_0_r. apply fromordinal_toordinal, Hd. Qed.

Lemma add_days_add_days d a b :
  valid d -> 0 <= a -> 0 <= b -> add_days (add_days d a) b = add_days d (a + b).
Proof.
  intros Hd Ha Hb. unfold add_days at 1. rewrite toordinal_add_days by assumption.
  unfold add_days. f_equal. lia.
Qed.

End Calendar.

(* ===================================================================== *)
(** * Recurrence steps                                                    *)
(* ===================================================================== *)

Section Steps.
Import datetime.

Lemma days_in_month_min y m : 1 <= m <= 12 -> 28 <= days_in_month y m.
Proof.
  intros Hm. unfold days_in_month.
  destruct (is_leap y); month_cases m; simpl; lia.
Qed.

(** The date after the years and months of a step: a date of the calendar,
    not before the date it comes from, and after it when the step has a
    year or a month. *)
Lemma radd_months_spec (r : relativedelta) (d : date) :
  valid d -> is_step r ->
  exists d1,
    d +rd r = add_days d1 (relativedelta.days r) /\ valid d1 /\ date_le d d1
    /\ (0 < relativedelta.years r + relativedelta.months r -> date_lt d d1).
Proof.
  intros (Hy & Hm & Hd) (Hys & Hms & Hds & Hpos).
  unfold relativedelta.radd, replace.
  destruct (negb (relativedelta.months r =? 0)) eqn:Em.
  - apply negb_true_iff, Z.eqb_neq in Em.
    destruct (month d + relativedelta.months r >? 12) eqn:E12.
    + rewrite Z.gtb_ltb in E12. apply Z.ltb_lt in E12.
      eexists; split; [reflexivity|].
      assert (Hm' : 1 <= month d + relativedelta.months r - 12 <= 12) by lia.
      pose proof (days_in_month_min (year d + relativedelta.years r + 1) _ Hm').
      split; [|split]; [unfold valid; simpl; lia | left | intros _];
        unfold date_lt; simpl; lia.
    + rewrite Z.gtb_ltb in E12. apply Z.ltb_ge in E12.
      assert (E1 : (month d + relativedelta.months r <? 1) = false) by (apply Z.ltb_ge; lia).
      rewrite E1.
      eexists; split; [reflexivity|].
      assert (Hm' : 1 <= month d + relativedelta.months r <= 12) by lia.
      pose proof (days_in_month_min (year d + relativedelta.years r) _ Hm').
      split; [|split]; [unfold valid; simpl; lia | left | intros _];
        unfold date_lt; simpl; lia.
  - apply negb_false_iff, Z.eqb_eq in Em.
    eexists; split; [reflexivity|].
    pose proof (days_in_month_min (year d + relativedelta.years r) _ Hm).
    destruct (Z.eq_dec (relativedelta.years r) 0) as [E0 | N0].
    + rewrite E0, Z.add_0_r, Z.min_r by lia.
      split; [|split]; [unfold valid; simpl; lia | right; destruct d; reflexivity | lia].
    + split; [|split]; [unfold valid; simpl; lia | left | intros _];
        unfold date_lt; simpl; lia.
Qed.

Lemma radd_valid (r : relativedelta) (d : date) :
  valid d -> is_step r -> valid (d +rd r).
Proof.
  intros Hd Hr. destruct (radd_months_spec r d Hd Hr) as (d1 & -> & Hd1 & _).
  apply add_days_valid; [assumption | apply Hr].
Qed.

(** A step moves a date forward by at least one day. *)
Lemma radd_ordinal (r : relativedelta) (d : date) :
  valid d -> is_step r -> toordinal d + 1 <= toordinal (d +rd r).
Proof.
  intros Hd Hr. destruct (radd_months_spec r d Hd Hr) as (d1 & -> & Hd1 & Hle & Hlt).
  destruct Hr as (Hys & Hms & Hds & Hpos).
  rewrite toordinal_add_days by assumption.
  apply (date_le_ordinal d d1 Hd Hd1) in Hle.
  destruct (Z.eq_dec (relativedelta.years r + relativedelta.months r) 0) as [E | N].
  - lia.
  - assert (L : date_lt d d1) by (apply Hlt; lia).
    apply (date_lt_ordinal d d1 Hd Hd1) in L. lia.
Qed.

Lemma radd_lt (r : relativedelta) (d : date) :
  valid d -> is_step r -> date_lt d (d +rd r).
Proof.
  intros Hd Hr. apply date_lt_ordinal; auto using radd_valid.
  pose proof (radd_ordinal r d Hd Hr). lia.
Qed.

(** A step of days only is a sum of days. *)
Lemma radd_days (n : Z) (d : date) :
  valid d -> d +rd relativedelta.make 0 0 n 0 = add_days d n.
Proof.
  intros (Hy & Hm & Hd). unfold relativedelta.make, relativedelta.radd, replace. simpl.
  rewrite !Z.add_0_r, Z.min_r by lia. destruct d; reflexivity.
Qed.

Lemma steps_valid n r d : valid d -> is_step r -> valid (steps n r d).
Proof.
  intros Hd Hr. induction n as [|n IH]; simpl; [assumption|].
  apply radd_valid; assumption.
Qed.

Lemma steps_S n r d : steps (S n) r d = steps n r (d +rd r).
Proof. unfold steps. rewrite Nat.iter_succ_r. reflexivity. Qed.

End Steps.

(* ===================================================================== *)
(** * The setters of RecurringTransaction                                 *)
(* ===================================================================== *)

Section SetterFacts.
Context {P : Platform}.
Import datetime.

Lemma make_days n : relativedelta.make 0 0 n 0 = relativedelta.mk 0 0 n.
Proof. unfold relativedelta.make. simpl. f_equal. lia. Qed.

(** Whatever the frequency setter stores is a recurrence step. *)
Lemma frequency_setter_step (self_name value : cell) (r : relativedelta) :
  RecurringTransaction.frequency_setter self_name value = Ok r -> is_step r.
Proof.
  unfold RecurringTransaction.frequency_setter, exit_application.
  repeat (destruct (_ : bool); try discriminate);
    intros [= <-]; vm_compute; intuition congruence.
Qed.

(** A step of whole months, as [relativedelta.__radd__] takes it, is the
    calendar step of the specification. *)
Lemma radd_months (n : Z) (d : date) :
  1 <= n <= 11 -> valid d ->
  d +rd relativedelta.make 0 n 0 0 = plus_months n d.
Proof.
  intros Hn (Hy & Hm & Hd).
  unfold relativedelta.make, relativedelta.radd, replace, plus_months.
  replace (Z.abs n >? 11) with false by (rewrite Z.gtb_ltb; symmetry; apply Z.ltb_ge; lia).
  simpl relativedelta.years. simpl relativedelta.months. simpl relativedelta.days.
  replace (n =? 0) with false by (symmetry; apply Z.eqb_neq; lia).
  simpl negb. cbv iota.
  destruct (month d + n >? 12) eqn:E.
  - rewrite Z.gtb_ltb in E. apply Z.ltb_lt in E.
    assert (E1 : (month d - 1 + n) / 12 = 1) by (Z.div_mod_to_equations; lia).
    assert (E2 : (month d - 1 + n) mod 12 + 1 = month d + n - 12)
      by (Z.div_mod_to_equations; lia).
    rewrite E1, E2, Z.add_0_r.
    set (d1 := mkdate _ _ _).
    assert (Hv : valid d1).
    { subst d1. unfold valid. simpl.
      pose proof (days_in_month_min (year d + 1) (month d + n - 12)). lia. }
    rewrite add_days_0 by exact Hv. subst d1. f_equal. lia.
  - rewrite Z.gtb_ltb in E. apply Z.ltb_ge in E.
    replace (month d + n <? 1) with false by (symmetry; apply Z.ltb_ge; lia).
    assert (E1 : (month d - 1 + n) / 12 = 0) by (Z.div_mod_to_equations; lia).
    assert (E2 : (month d - 1 + n) mod 12 + 1 = month d + n)
      by (Z.div_mod_to_equations; lia).
    rewrite E1, E2, !Z.add_0_r.
    set (d1 := mkdate _ _ _).
    assert (Hv : valid d1).
    { subst d1. unfold valid. simpl.
      pose proof (days_in_month_min (year d) (month d + n)). lia. }
    rewrite add_days_0 by exact Hv. subst d1. f_equal. lia.
Qed.

Lemma radd_year (d : date) :
  valid d -> d +rd relativedelta.make 1 0 0 0 = plus_years 1 d.
Proof.
  intros (Hy & Hm & Hd).
  unfold relativedelta.make, relativedelta.radd, replace, plus_years. simpl.
  set (d1 := mkdate _ _ _).
  assert (Hv : valid d1).
  { subst d1. unfold valid. simpl.
    pose proof (days_in_month_min (year d + 1) (month d)). lia. }
  rewrite add_days_0 by exact Hv. subst d1. f_equal. lia.
Qed.

End SetterFacts.

(** C7.  The frequency setter resolves each category to the fixed step of
    section 4.1 and nothing else: daily, weekly and biweekly add 1, 7 and 14
    days; monthly, quarterly and semiyearly add 1, 3 and 6 calendar months;
    yearly adds a calendar year, with the day clipped to the length of the
    month reached, so that January 31 plus one month is February 28, or 29
    in a leap year.  Any other value, a missing one included, ends the
    program with status 1 and a line that names the transaction. *)
Theorem frequency_is_the_fixed_step {P : Platform} (self_name value : cell) :
  match value ≫= spec_step with
  | Some step =>
    exists r, RecurringTransaction.frequency_setter self_name value = Ok r
              /\ forall d, datetime.valid d -> d +rd r = step d
  | None =>
    RecurringTransaction.frequency_setter self_name value
    = Exit ("Invalid frequency for " +:+ str self_name +:+ ".") 1
  end
  /\ RecurringTransaction.frequency_setter self_name (Some "monthly"%string)
     = Ok (relativedelta.make 0 1 0 0)
  /\ forall y, 1 <= y ->
       datetime.mkdate y 1 31 +rd relativedelta.make 0 1 0 0
       = datetime.mkdate y 2 (if datetime.is_leap y then 29 else 28).
Proof.
  split; [|split].
  - destruct value as [c|]; [|reflexivity].
    unfold RecurringTransaction.frequency_setter, RecurringTransaction.valid_freq,
      spec_step, cell_in, cell_eqb, exit_application.
    simpl.
    destruct (String.eqb c "daily") eqn:E1; simpl.
    { eexists; split; [reflexivity|]. intros d Hd. apply radd_days, Hd. }
    destruct (String.eqb c "weekly") eqn:E2; simpl.
    { eexists; split; [reflexivity|]. intros d Hd. apply (radd_days 7), Hd. }
    destruct (String.eqb c "biweekly") eqn:E3; simpl.
    { eexists; split; [reflexivity|]. intros d Hd. apply (radd_days 14), Hd. }
    destruct (String.eqb c "monthly") eqn:E4; simpl.
    { eexists; split; [reflexivity|]. intros d Hd. apply (radd_months 1); [lia | exact Hd]. }
    destruct (String.eqb c "quarterly") eqn:E5; simpl.
    { eexists; split; [reflexivity|]. intros d Hd. apply (radd_months 3); [lia | exact Hd]. }
    destruct (String.eqb c "semiyearly") eqn:E6; simpl.
    { eexists; split; [reflexivity|]. intros d Hd. apply (radd_months 6); [lia | exact Hd]. }
    destruct (String.eqb c "yearly") eqn:E7; simpl.
    { eexists; split; [reflexivity|]. intros d Hd. apply radd_year, Hd. }
    reflexivity.
  - reflexivity.
  - intros y Hy.
    assert (Hv : datetime.valid (datetime.mkdate y 1 31))
      by (unfold datetime.valid, datetime.days_in_month; simpl; lia).
    rewrite (radd_months 1) by (lia || exact Hv).
    unfold plus_months, datetime.days_in_month. simpl.
    change ((1 - 1 + 1) `div` 12) with 0. change ((1 - 1 + 1) `mod` 12 + 1) with 2.
    rewrite Z.add_0_r. destruct (datetime.is_leap y); reflexivity.
Qed.

Section NextDate.
Context {P : Platform} {L : PlatformLaws P}.
Import datetime.

(** The loop of the [next_date] setter, given at least as many passes as
    there are days between the date and today: it ends, after some number
    of whole steps, on the first date of the sequence that is not before
    today. *)
Lemma next_date_loop_spec (r : relativedelta) (fuel : nat) (d : date) :
  is_step r -> valid d ->
  toordinal today - toordinal d <= Z.of_nat fuel ->
  exists n,
    RecurringTransaction.next_date_loop fuel today r d = Ok (steps n r d)
    /\ date_le today (steps n r d)
    /\ forall k, (k < n)%nat -> date_lt (steps k r d) today.
Proof.
  intros Hr. revert d. induction fuel as [|fuel IH]; intros d Hd Hgap.
  - exists 0%nat. simpl.
    assert (Hle : date_le today d) by (apply date_le_ordinal; auto using today_valid; lia).
    destruct (ltb d today) eqn:E.
    + apply ltb_lt, (date_lt_ordinal d today Hd today_valid) in E. lia.
    + split; [reflexivity | split; [exact Hle | lia]].
  - simpl. destruct (ltb d today) eqn:E.
    + apply ltb_lt in E.
      pose proof (radd_ordinal r d Hd Hr) as Hstep.
      destruct (IH (d +rd r) (radd_valid r d Hd Hr)) as (n & Hrun & Hle & Hbefore); [lia|].
      exists (S n). rewrite steps_S. split; [exact Hrun | split; [exact Hle|]].
      intros [|k] Hk; [exact E|]. rewrite steps_S. apply Hbefore. lia.
    + exists 0%nat. split; [reflexivity | split; [| lia]]. simpl.
      destruct (date_lt_trichotomy d today) as [H | [-> | H]].
      * apply ltb_lt in H. congruence.
      * right; reflexivity.
      * left; exact H.
Qed.

(** The setter on a string that parses. *)
Lemma next_date_setter_string (self_name : cell) (r : relativedelta) (s : string)
  (d : date) :
  is_step r -> fromisoformat s = Some d ->
  exists n,
    RecurringTransaction.next_date_setter self_name r (PyStr s) = Ok (steps n r d)
    /\ date_le today (steps n r d)
    /\ forall k, (k < n)%nat -> date_lt (steps k r d) today.
Proof.
  intros Hr Hs. unfold RecurringTransaction.next_date_setter. rewrite Hs.
  apply next_date_loop_spec; [exact Hr | exact (fromisoformat_valid s d Hs) | lia].
Qed.

(** The setter on a date that is not in the past, which is how
    [advance_next_date] calls it. *)
Lemma next_date_setter_date (self_name : cell) (r : relativedelta) (d : date) :
  date_le today d ->
  RecurringTransaction.next_date_setter self_name r (PyDate d) = Ok d.
Proof.
  intros H. apply leb_le in H. unfold RecurringTransaction.next_date_setter.
  rewrite H. reflexivity.
Qed.

End NextDate.

(** C3.  A transaction is constructed from a row whose kind, amount and
    frequency are accepted and whose next_date parses to [d].  Its stored
    next_date is [d] moved forward by a whole number [n] of recurrence
    steps, it is today or later, and every date of the sequence before it
    was still before today: the loop added one step at a time and stopped at
    the first date that is not in the past.  So [n] is positive when [d] is
    before today, and [d] itself is kept when it is today (or later). *)
Theorem next_date_rolls_forward_by_whole_steps {P : Platform} {L : PlatformLaws P}
  (name transaction_type amount frequency : cell) (s : string) (d : date)
  (kind : cell) (sign : string) (value : float) (r : relativedelta) :
  RecurringTransaction.transaction_type_setter name transaction_type = Ok (kind, sign) ->
  RecurringTransaction.amount_setter name kind amount = Ok value ->
  RecurringTransaction.frequency_setter name frequency = Ok r ->
  fromisoformat s = Some d ->
  exists n,
    RecurringTransaction.init name transaction_type amount frequency (Some s)
    = Ok (RecurringTransaction.mk name sign kind value r (steps n r d))
    /\ date_le today (steps n r d)
    /\ (forall k, (k < n)%nat -> date_lt (steps k r d) today)
    /\ (date_lt d today -> (0 < n)%nat)
    /\ (date_le today d -> n = 0%nat).
Proof.
  intros Hkind Hamount Hfreq Hs.
  pose proof (frequency_setter_step _ _ _ Hfreq) as Hr.
  destruct (next_date_setter_string name r s d Hr Hs) as (n & Hset & Hle & Hbefore).
  exists n. split; [|split; [exact Hle | split; [exact Hbefore | split]]].
  - unfold RecurringTransaction.init, of_cell.
    rewrite Hkind. cbn [mbind outcome_bind].
    rewrite Hamount. cbn [mbind outcome_bind].
    rewrite Hfreq. cbn [mbind outcome_bind].
    rewrite Hset. reflexivity.
  - intros Hlt. destruct n as [|n]; [|lia]. simpl in Hle.
    pose proof (fromisoformat_valid s d Hs) as Hd.
    apply (date_le_ordinal _ _ today_valid Hd) in Hle.
    apply (date_lt_ordinal _ _ Hd today_valid) in Hlt. lia.
  - intros Hge. destruct n as [|n]; [reflexivity|].
    pose proof (Hbefore 0%nat ltac:(lia)) as Hlt. simpl in Hlt.
    pose proof (fromisoformat_valid s d Hs) as Hd.
    apply (date_le_ordinal _ _ today_valid Hd) in Hge.
    apply (date_lt_ordinal _ _ Hd today_valid) in Hlt. lia.
Qed.

(* ===================================================================== *)
(** * One pass through the loop                                           *)
(* ===================================================================== *)

Section LoopBody.
Context {P : Platform} {L : PlatformLaws P}.
Import datetime.

(** Advancing a transaction that is due on a day of the run succeeds: the
    new date is after that day, and so not before today. *)
Lemma advance_due (day : date) (tx : RecurringTransaction.t) :
  valid day -> date_le today day -> tx_ok day tx ->
  RecurringTransaction.is_due tx day = true ->
  RecurringTransaction.advance_next_date tx = Ok (advanced tx).
Proof.
  intros Hday Htoday (Hv & Hr & _) Hdue. apply eqb_eq in Hdue.
  unfold RecurringTransaction.advance_next_date.
  rewrite next_date_setter_date; [reflexivity|].
  apply date_le_ordinal; auto using today_valid, radd_valid.
  pose proof (radd_ordinal _ _ Hv Hr).
  apply (date_le_ordinal _ _ today_valid Hday) in Htoday.
  rewrite Hdue in *. lia.
Qed.

(** Recording the transaction that stands at a position of the store. *)
Lemma record_transaction_at csv days start day end_day prefix tx suffix log bal tx' :
  RecurringTransaction.advance_next_date tx = Ok tx' ->
  Ledger.record_transaction
    (Ledger.mk csv days start day end_day (prefix ++ tx :: suffix) log bal)
    (length prefix)
  = Ok (Ledger.mk csv days start day end_day (prefix ++ tx' :: suffix)
          (log ++ [LedgerEntry.mk day (RecurringTransaction.name tx)
                     (RecurringTransaction.amount tx)
                     (PrimFloat.add bal (RecurringTransaction.amount tx))])
          (PrimFloat.add bal (RecurringTransaction.amount tx))).
Proof.
  intros Hadv. unfold Ledger.record_transaction. simpl.
  rewrite list_lookup_middle by reflexivity. rewrite Hadv. simpl.
  rewrite insert_app_r_alt by lia. rewrite Nat.sub_diag. reflexivity.
Qed.

(** The [for] loop of a pass, started at any point of the store: it posts
    the due transactions of the rest of the store in order and advances each
    of them where it stands. *)
Lemma for_each_record (day : date) (suffix : list RecurringTransaction.t) :
  (forall tx, In tx suffix -> RecurringTransaction.is_due tx day = true ->
              RecurringTransaction.advance_next_date tx = Ok (advanced tx)) ->
  forall prefix csv days start end_day log bal,
    for_each Ledger.record_transaction (Ledger.due_from day (length prefix) suffix)
      (Ledger.mk csv days start day end_day (prefix ++ suffix) log bal)
    = Ok (Ledger.mk csv days start day end_day
            (prefix ++ map (after_day day) suffix)
            (log ++ post_all bal day (due_on day suffix))
            (post_balance bal (due_on day suffix))).
Proof.
  induction suffix as [|tx suffix IH]; intros Hadv prefix csv days start end_day log bal.
  - simpl. rewrite !app_nil_r. reflexivity.
  - assert (Hadv' : forall tx', In tx' suffix ->
               RecurringTransaction.is_due tx' day = true ->
               RecurringTransaction.advance_next_date tx' = Ok (advanced tx')).
    { intros tx' Hin. apply Hadv. right. exact Hin. }
    simpl Ledger.due_from. unfold due_on, after_day. simpl List.filter. simpl map.
    destruct (RecurringTransaction.is_due tx day) eqn:Edue.
    + simpl for_each.
      rewrite (record_transaction_at _ _ _ _ _ _ _ _ _ _ _ (Hadv tx (or_introl eq_refl) Edue)).
      cbn [mbind outcome_bind].
      replace (prefix ++ advanced tx :: suffix)
        with ((prefix ++ [advanced tx]) ++ suffix)
        by (rewrite <- app_assoc; reflexivity).
      replace (S (length prefix)) with (length (prefix ++ [advanced tx]))
        by (rewrite length_app; simpl; lia).
      rewrite (IH Hadv'). rewrite <- !app_assoc. reflexivity.
    + replace (prefix ++ tx :: suffix) with ((prefix ++ [tx]) ++ suffix)
        by (rewrite <- app_assoc; reflexivity).
      replace (S (length prefix)) with (length (prefix ++ [tx]))
        by (rewrite length_app; simpl; lia).
      rewrite (IH Hadv'). rewrite <- !app_assoc. reflexivity.
Qed.

(** A pass through the body of the loop, from a well-formed ledger, runs to
    completion and leaves the ledger of the closed form. *)
Lemma run_loop_body_after_pass (l : Ledger.t) :
  ledger_ok l -> Ledger.run_loop_body l = Ok (after_pass l).
Proof.
  intros (Hday & Htoday & Htxs).
  unfold Ledger.run_loop_body, Ledger.get_transactions_for_day, after_pass.
  destruct l as [csv days start day end_day txs log bal]. simpl in *.
  assert (Hadv : forall tx, In tx txs -> RecurringTransaction.is_due tx day = true ->
                 RecurringTransaction.advance_next_date tx = Ok (advanced tx)).
  { intros tx Hin. apply advance_due; auto.
    rewrite Forall_forall in Htxs. apply Htxs, list_elem_of_In, Hin. }
  pose proof (for_each_record day txs Hadv [] csv days start end_day log bal) as H.
  simpl in H. rewrite H. reflexivity.
Qed.

End LoopBody.

(* ===================================================================== *)
(** * The states of a run                                                 *)
(* ===================================================================== *)

Section Run.
Context {P : Platform} {L : PlatformLaws P}.
Import datetime.

Lemma current_day_after_pass (l : Ledger.t) :
  valid (Ledger.current_day l) ->
  Ledger.current_day (after_pass l) = add_days (Ledger.current_day l) 1.
Proof. intros Hv. unfold after_pass, Ledger.date_advance. simpl. apply radd_days, Hv. Qed.

(** At the end of a day no transaction is due on that day or before it. *)
Lemma after_day_ok (day : date) (tx : RecurringTransaction.t) :
  valid day -> tx_ok day tx -> tx_ok (add_days day 1) (after_day day tx).
Proof.
  intros Hday (Hv & Hr & Hle). unfold after_day.
  pose proof (add_days_valid day 1 Hday ltac:(lia)) as Hday'.
  pose proof (toordinal_add_days day 1 Hday ltac:(lia)) as Hord.
  apply (date_le_ordinal _ _ Hday Hv) in Hle.
  destruct (RecurringTransaction.is_due tx day) eqn:Edue.
  - apply eqb_eq in Edue. unfold tx_ok, advanced. simpl.
    split; [apply radd_valid; assumption | split; [assumption|]].
    apply date_le_ordinal; auto using radd_valid.
    pose proof (radd_ordinal _ _ Hv Hr). rewrite Edue in *. lia.
  - split; [assumption | split; [assumption|]].
    apply date_le_ordinal; auto.
    assert (toordinal day <> toordinal (RecurringTransaction.next_date tx)).
    { intros E. apply toordinal_inj in E; auto.
      assert (eqb (RecurringTransaction.next_date tx) day = true)
        by (apply eqb_eq; congruence).
      unfold RecurringTransaction.is_due in Edue. congruence. }
    lia.
Qed.

Lemma after_pass_ok (l : Ledger.t) : ledger_ok l -> ledger_ok (after_pass l).
Proof.
  intros (Hday & Htoday & Htxs). unfold ledger_ok.
  rewrite current_day_after_pass by exact Hday.
  pose proof (add_days_valid _ 1 Hday ltac:(lia)) as Hday'.
  split; [exact Hday' | split].
  - apply date_le_ordinal; auto using today_valid.
    apply (date_le_ordinal _ _ today_valid Hday) in Htoday.
    rewrite toordinal_add_days by (auto; lia). lia.
  - unfold after_pass, Ledger.date_advance. simpl.
    apply Forall_fmap. eapply Forall_impl; [exact Htxs|].
    intros tx Htx. apply after_day_ok; assumption.
Qed.

(** Induction over the states of a run that starts well formed: every pass
    is a pass of the closed form. *)
Lemma reaches_ind_ok (l0 : Ledger.t) (Q : Ledger.t -> Prop) :
  ledger_ok l0 -> Q l0 ->
  (forall l, ledger_ok l -> Ledger.is_active l = true -> Q l -> Q (after_pass l)) ->
  forall l, reaches l0 l -> ledger_ok l /\ Q l.
Proof.
  intros Hok0 HQ0 Hstep l Hreach.
  induction Hreach as [|l l' Hreach [Hok HQ] Hact Hbody].
  - split; assumption.
  - rewrite run_loop_body_after_pass in Hbody by exact Hok.
    injection Hbody as <-. split; [apply after_pass_ok, Hok | apply Hstep; assumption].
Qed.

Lemma reaches_ok (l0 l : Ledger.t) : ledger_ok l0 -> reaches l0 l -> ledger_ok l.
Proof.
  intros Hok Hreach.
  apply (reaches_ind_ok l0 (fun _ => True) Hok I (fun _ _ _ _ => I) l Hreach).
Qed.

Lemma reaches_trans (l0 l1 l2 : Ledger.t) :
  reaches l0 l1 -> reaches l1 l2 -> reaches l0 l2.
Proof.
  intros H01 H12. induction H12 as [|l l' _ IH Hact Hbody]; [exact H01|].
  eapply reaches_pass; eauto.
Qed.

(** The ledger [run_loop] returns is a state of the run. *)
Lemma run_loop_reaches (fuel : nat) (l0 l : Ledger.t) :
  Ledger.run_loop fuel l0 = Ok l -> reaches l0 l /\ Ledger.is_active l = false.
Proof.
  revert l0. induction fuel as [|fuel IH]; intros l0; simpl.
  - destruct (Ledger.is_active l0) eqn:Eact; [discriminate|].
    intros [= <-]. split; [constructor | exact Eact].
  - destruct (Ledger.is_active l0) eqn:Eact.
    + destruct (Ledger.run_loop_body l0) as [l1| | |] eqn:Ebody; simpl; try discriminate.
      intros Hrun. destruct (IH _ Hrun) as [Hreach Hend]. split; [|exact Hend].
      eapply reaches_trans; [|exact Hreach].
      eapply reaches_pass; [constructor | exact Eact | exact Ebody].
    + intros [= <-]. split; [constructor | exact Eact].
Qed.

End Run.

(* ===================================================================== *)
(** * Loading                                                             *)
(* ===================================================================== *)

Section Loading.
Context {P : Platform} {L : PlatformLaws P}.
Import datetime.

(** [mapM] in the [outcome] monad: the results, in order, of the calls on
    the elements, all of which ran to completion. *)
Lemma mapM_Ok {A B : Type} (f : A -> outcome B) (xs : list A) (ys : list B) :
  mapM f xs = Ok ys -> Forall2 (fun x y => f x = Ok y) xs ys.
Proof.
  revert ys. induction xs as [|x xs IH]; intros ys; simpl.
  - intros [= <-]. constructor.
  - destruct (f x) as [y| | |] eqn:Ex; simpl; try discriminate.
    destruct (mapM f xs) as [k| | |] eqn:Exs; simpl; try discriminate.
    intros [= <-]. constructor; [exact Ex | apply IH; reflexivity].
Qed.

(** A constructed transaction is well formed on the day of the run. *)
Lemma init_tx_ok (name transaction_type amount frequency next_date : cell)
  (tx : RecurringTransaction.t) :
  RecurringTransaction.init name transaction_type amount frequency next_date = Ok tx ->
  tx_ok today tx.
Proof.
  unfold RecurringTransaction.init.
  destruct (RecurringTransaction.transaction_type_setter name transaction_type)
    as [[kind sign]| | |]; simpl; try discriminate.
  destruct (RecurringTransaction.amount_setter name kind amount)
    as [value| | |]; simpl; try discriminate.
  destruct (RecurringTransaction.frequency_setter name frequency)
    as [r| | |] eqn:Efreq; simpl; try discriminate.
  pose proof (frequency_setter_step _ _ _ Efreq) as Hr.
  destruct next_date as [s|]; simpl; [|discriminate].
  destruct (fromisoformat s) as [d|] eqn:Es; [|discriminate].
  destruct (next_date_setter_string name r s d Hr Es) as (n & Hset & Hle & _).
  unfold RecurringTransaction.next_date_setter in Hset. rewrite Es in Hset.
  rewrite Hset. simpl. intros [= <-]. unfold tx_ok. simpl.
  split; [|split; assumption].
  apply steps_valid; [exact (fromisoformat_valid s d Es) | exact Hr].
Qed.

Lemma import_row_ok (row : gmap string cell) (tx : RecurringTransaction.t) :
  Ledger.import_row row = Ok tx -> tx_ok today tx.
Proof.
  unfold Ledger.import_row.
  repeat (destruct (getitem row _) as [?| | |]; simpl; try discriminate).
  apply init_tx_ok.
Qed.

(** The ledger object as [__init__] leaves it. *)
Lemma init_spec (csv : csv_file) (days : Z) (start : float) (l0 : Ledger.t) :
  Ledger.init csv days start = Ok l0 ->
  exists txs,
    Ledger.import_transactions csv = Ok txs
    /\ Forall2 (fun row tx => Ledger.import_row row = Ok tx) (DictReader_rows csv) txs
    /\ l0 = Ledger.mk csv days start today (today +rd relativedelta.make 0 0 days 0)
              txs [opening_entry today start] start.
Proof.
  unfold Ledger.init.
  destruct (Ledger.import_transactions csv) as [txs| | |] eqn:Eimp; simpl; try discriminate.
  intros [= <-]. exists txs. split; [reflexivity | split; [|reflexivity]].
  unfold Ledger.import_transactions in Eimp.
  destruct (Ledger.validate_input_fields csv); simpl in Eimp; try discriminate.
  apply mapM_Ok, Eimp.
Qed.

Lemma init_ok (csv : csv_file) (days : Z) (start : float) (l0 : Ledger.t) :
  Ledger.init csv days start = Ok l0 -> ledger_ok l0.
Proof.
  intros Hinit. destruct (init_spec _ _ _ _ Hinit) as (txs & _ & Hrows & ->).
  unfold ledger_ok. simpl. split; [exact today_valid | split; [right; reflexivity|]].
  clear Hinit. induction Hrows as [|row tx rows txs Hrow _ IH]; constructor.
  - exact (import_row_ok row tx Hrow).
  - exact IH.
Qed.

End Loading.

(* ===================================================================== *)
(** * The ledger sequence                                                 *)
(* ===================================================================== *)

Section LedgerSequence.
Context {P : Platform}.

(** A [for] loop keeps what each pass of its body keeps. *)
Lemma for_each_preserves {S X : Type} (body : S -> X -> outcome S) (Q : S -> Prop) :
  (forall s x s', Q s -> body s x = Ok s' -> Q s') ->
  forall xs s s', Q s -> for_each body xs s = Ok s' -> Q s'.
Proof.
  intros Hbody xs. induction xs as [|x xs IH]; intros s s' HQ; simpl.
  - intros [= <-]. exact HQ.
  - destruct (body s x) as [s1| | |] eqn:E; simpl; try discriminate.
    apply IH. eapply Hbody; eauto.
Qed.

(** What [record_transaction] does to the ledger object when it returns. *)
Lemma record_transaction_Ok (l l' : Ledger.t) (i : nat) :
  Ledger.record_transaction l i = Ok l' ->
  exists tx tx',
    Ledger.recurring_transactions l !! i = Some tx
    /\ RecurringTransaction.advance_next_date tx = Ok tx'
    /\ l' = Ledger.mk (Ledger.csv_input l) (Ledger.days l) (Ledger.starting_balance l)
              (Ledger.current_day l) (Ledger.end_day l)
              (<[i := tx']> (Ledger.recurring_transactions l))
              (Ledger.transaction_log l
               ++ [LedgerEntry.mk (Ledger.current_day l) (RecurringTransaction.name tx)
                     (RecurringTransaction.amount tx)
                     (PrimFloat.add (Ledger.current_balance l)
                        (RecurringTransaction.amount tx))])
              (PrimFloat.add (Ledger.current_balance l) (RecurringTransaction.amount tx)).
Proof.
  unfold Ledger.record_transaction.
  destruct (Ledger.recurring_transactions l !! i) as [tx|]; [|discriminate].
  destruct (RecurringTransaction.advance_next_date tx) as [tx'| | |] eqn:E;
    simpl; try discriminate.
  intros [= <-]. exists tx, tx'. auto.
Qed.

(** Appending an entry that is in step with the last one keeps the ledger
    step consistent. *)
Lemma step_consistent_snoc (start : float) (log : list LedgerEntry.t)
  (e e' : LedgerEntry.t) :
  step_consistent start log -> last log = Some e ->
  LedgerEntry.balance e' = PrimFloat.add (LedgerEntry.balance e) (LedgerEntry.amount e') ->
  step_consistent start (log ++ [e']).
Proof.
  intros [Hfirst Hnext] Hlast Hstep.
  rewrite last_lookup in Hlast.
  assert (Hlen : (0 < length log)%nat).
  { destruct log; [discriminate | simpl; lia]. }
  split.
  - intros e0 H0. apply Hfirst. rewrite lookup_app_l in H0 by exact Hlen. exact H0.
  - intros k a b Ha Hb.
    apply lookup_snoc_Some in Ha. apply lookup_snoc_Some in Hb.
    destruct Hb as [[Hk Hb] | [Hk <-]].
    + destruct Ha as [[_ Ha] | [Hk' _]]; [eauto | lia].
    + destruct Ha as [[_ Ha] | [Hk' _]]; [|lia].
      replace k with (pred (length log)) in Ha by lia.
      rewrite Hlast in Ha. injection Ha as <-. exact Hstep.
Qed.

Lemma record_transaction_log_ok (start : float) (l l' : Ledger.t) (i : nat) :
  log_ok start l -> Ledger.record_transaction l i = Ok l' -> log_ok start l'.
Proof.
  intros (Hstart & [rest Hrest] & Hcons & Hbal) Hrec.
  destruct (record_transaction_Ok _ _ _ Hrec) as (tx & tx' & _ & _ & ->).
  unfold log_ok, balance_in_step, balances in *. simpl.
  split; [exact Hstart | split; [|split]].
  - rewrite Hrest. eexists. rewrite <- app_comm_cons. reflexivity.
  - rewrite fmap_last in Hbal.
    destruct (last (Ledger.transaction_log l)) as [e|] eqn:Elast; [|discriminate].
    injection Hbal as Hbal.
    eapply step_consistent_snoc; [exact Hcons | exact Elast |]. simpl. congruence.
  - rewrite map_app. simpl. apply last_snoc.
Qed.

Lemma run_loop_body_log_ok (start : float) (l l' : Ledger.t) :
  log_ok start l -> Ledger.run_loop_body l = Ok l' -> log_ok start l'.
Proof.
  intros Hok. unfold Ledger.run_loop_body.
  destruct (for_each _ _ l) as [l1| | |] eqn:E; simpl; try discriminate.
  intros [= <-].
  assert (H1 : log_ok start l1).
  { eapply (for_each_preserves Ledger.record_transaction (log_ok start)); eauto.
    intros s x s'. apply record_transaction_log_ok. }
  exact H1.
Qed.

Lemma reaches_log_ok (start : float) (l0 l : Ledger.t) :
  log_ok start l0 -> reaches l0 l -> log_ok start l.
Proof.
  intros H0 Hreach. induction Hreach as [|l l' _ IH _ Hbody]; [exact H0|].
  eapply run_loop_body_log_ok; eauto.
Qed.

(** The ledger object is in order when [__init__] returns. *)
Lemma init_log_ok (csv : csv_file) (days : Z) (start : float) (l0 : Ledger.t) :
  Ledger.init csv days start = Ok l0 -> log_ok start l0.
Proof.
  intros Hinit. destruct (init_spec _ _ _ _ Hinit) as (txs & _ & _ & ->).
  unfold log_ok, balance_in_step, step_consistent. simpl.
  split; [reflexivity | split; [exists []; reflexivity | split; [split|reflexivity]]].
  - intros e [= <-]. simpl. auto.
  - intros [|k] e e' _ He'; discriminate.
Qed.

(** Every ledger of a run is in order. *)
Lemma simulate_log_ok (fuel : nat) (csv : csv_file) (days : Z) (start : float)
  (l : Ledger.t) :
  simulate fuel csv days start = Ok l -> log_ok start l.
Proof.
  unfold simulate.
  destruct (Ledger.init csv days start) as [l0| | |] eqn:Einit; simpl; try discriminate.
  intros Hrun. apply run_loop_reaches in Hrun as [Hreach _].
  eapply reaches_log_ok; [apply (init_log_ok _ _ _ _ Einit) | exact Hreach].
Qed.

(** In a step-consistent ledger every balance is the starting balance plus
    the amounts of the entries after the first, up to its own. *)
Lemma step_consistent_running (start : float) (log : list LedgerEntry.t) :
  step_consistent start log -> balance_is_start_plus_amounts_2_to_k start log.
Proof.
  intros [Hfirst Hnext] k. induction k as [|k IH]; intros e He.
  - destruct (Hfirst e He) as [Hb _]. rewrite Hb.
    destruct log as [|e0 log]; [discriminate|]. reflexivity.
  - destruct (lookup_lt_is_Some_2 log k) as [e0 He0].
    { apply lookup_lt_Some in He. lia. }
    rewrite (Hnext k e0 e He0 He), (IH e0 He0).
    unfold amounts in *.
    rewrite (take_S_r (map LedgerEntry.amount log) (S k) (LedgerEntry.amount e)).
    2:{ change (map LedgerEntry.amount log) with (LedgerEntry.amount <$> log).
        rewrite list_lookup_fmap, He. reflexivity. }
    rewrite drop_app_le by (rewrite length_take, length_map; apply lookup_lt_Some in He0; lia).
    unfold add_all. rewrite foldl_app. reflexivity.
Qed.

End LedgerSequence.

(** C1, as the code has it.  In every ledger a run produces, entry 1 is the
    Opening Balance entry, whose amount is the starting balance, and the
    balance recorded in entry k is the starting balance plus the signed
    amounts of the entries 2 to k, added in ledger order: the Opening
    Balance entry stands for the starting balance and its amount is not
    added to it once more. *)
Theorem running_balance_from_second_entry {P : Platform} (fuel : nat) (csv : csv_file)
  (days : Z) (start : float) (l : Ledger.t) :
  simulate fuel csv days start = Ok l ->
  (exists rest, Ledger.transaction_log l = opening_entry today start :: rest)
  /\ balance_is_start_plus_amounts_2_to_k start (Ledger.transaction_log l).
Proof.
  intros Hrun. destruct (simulate_log_ok _ _ _ _ _ Hrun) as (_ & Hopen & Hcons & _).
  split; [exact Hopen | apply step_consistent_running, Hcons].
Qed.

(** C8.  When the ledger object has been constructed its ledger sequence is
    the Opening Balance entry alone, dated today, with amount and balance
    both the starting balance given; that is before [run_loop] starts, and
    the entry is still the first one in every state of the run, the last
    included. *)
Theorem opening_balance_is_first {P : Platform} (csv : csv_file) (days : Z)
  (start : float) (l0 : Ledger.t) :
  Ledger.init csv days start = Ok l0 ->
  Ledger.transaction_log l0 = [LedgerEntry.mk today (Some "Opening Balance"%string) start start]
  /\ (forall l, reaches l0 l ->
        exists rest,
          Ledger.transaction_log l
          = LedgerEntry.mk today (Some "Opening Balance"%string) start start :: rest)
  /\ (forall fuel l, Ledger.run_loop fuel l0 = Ok l ->
        exists rest,
          Ledger.transaction_log l
          = LedgerEntry.mk today (Some "Opening Balance"%string) start start :: rest).
Proof.
  intros Hinit.
  assert (Hreach : forall l, reaches l0 l ->
            exists rest, Ledger.transaction_log l = opening_entry today start :: rest).
  { intros l Hl.
    destruct (reaches_log_ok start l0 l (init_log_ok _ _ _ _ Hinit) Hl) as (_ & H & _).
    exact H. }
  split; [|split].
  - destruct (init_spec _ _ _ _ Hinit) as (txs & _ & _ & ->). reflexivity.
  - exact Hreach.
  - intros fuel l Hrun. apply Hreach. apply (run_loop_reaches fuel), Hrun.
Qed.

(** C9.  Every ledger a run produces is step consistent: its first entry has
    the starting balance as amount and as balance, and every later entry has
    the balance of the entry before it plus its own amount.  Both operations
    that append an entry keep it so: [record_starting_balance_to_ledger]
    on the empty ledger sequence of a fresh ledger object, and
    [record_transaction] on a ledger object whose running balance is the
    balance of its last entry. *)
Theorem ledger_is_step_consistent {P : Platform} :
  (forall fuel csv days start l,
     simulate fuel csv days start = Ok l ->
     step_consistent start (Ledger.transaction_log l))
  /\ (forall self,
        Ledger.transaction_log self = [] ->
        Ledger.current_balance self = Ledger.starting_balance self ->
        let self' := Ledger.record_starting_balance_to_ledger self in
        step_consistent (Ledger.starting_balance self') (Ledger.transaction_log self')
        /\ balance_in_step self')
  /\ (forall self transaction self',
        step_consistent (Ledger.starting_balance self) (Ledger.transaction_log self) ->
        balance_in_step self ->
        Ledger.record_transaction self transaction = Ok self' ->
        step_consistent (Ledger.starting_balance self') (Ledger.transaction_log self')
        /\ balance_in_step self').
Proof.
  split; [|split].
  - intros fuel csv days start l Hrun.
    destruct (simulate_log_ok _ _ _ _ _ Hrun) as (_ & _ & H & _). exact H.
  - intros self Hlog Hbal self'. subst self'.
    unfold Ledger.record_starting_balance_to_ledger, balance_in_step, step_consistent.
    simpl. rewrite Hlog. simpl. split; [split|].
    + intros e [= <-]. simpl. auto.
    + intros [|k] e e' _ He'; discriminate.
    + congruence.
  - intros self i self' Hcons Hbal Hrec.
    destruct (record_transaction_Ok _ _ _ Hrec) as (tx & tx' & _ & _ & ->).
    unfold balance_in_step, balances in *. simpl. split.
    + rewrite fmap_last in Hbal.
      destruct (last (Ledger.transaction_log self)) as [e|] eqn:Elast; [|discriminate].
      injection Hbal as Hbal.
      eapply step_consistent_snoc; [exact Hcons | exact Elast |]. simpl. congruence.
    + rewrite map_app. simpl. apply last_snoc.
Qed.

(* ===================================================================== *)
(** * Postings of one day                                                 *)
(* ===================================================================== *)

Section Postings.
Context {P : Platform} {L : PlatformLaws P}.

Lemma length_post_all (bal : float) (day : date) (due : list RecurringTransaction.t) :
  length (post_all bal day due) = length due.
Proof. revert bal. induction due as [|tx due IH]; intros bal; simpl; auto. Qed.

(** The entry of the [j]-th transaction posted on a day: it stands at
    position [j] and carries the balance before the day plus the amounts of
    the transactions posted up to it, its own included. *)
Lemma post_all_lookup (bal : float) (day : date) (due : list RecurringTransaction.t)
  (j : nat) (tx : RecurringTransaction.t) :
  due !! j = Some tx ->
  post_all bal day due !! j
  = Some (LedgerEntry.mk day (RecurringTransaction.name tx) (RecurringTransaction.amount tx)
            (add_all bal (map RecurringTransaction.amount (take (S j) due)))).
Proof.
  revert bal j. induction due as [|tx0 due IH]; intros bal j Hj; [discriminate|].
  destruct j as [|j]; simpl in *.
  - injection Hj as ->. reflexivity.
  - rewrite (IH _ _ Hj). reflexivity.
Qed.

Lemma post_all_elem (bal : float) (day : date) (due : list RecurringTransaction.t)
  (tx : RecurringTransaction.t) :
  In tx due ->
  exists b, In (LedgerEntry.mk day (RecurringTransaction.name tx)
                  (RecurringTransaction.amount tx) b)
              (post_all bal day due).
Proof.
  revert bal. induction due as [|tx0 due IH]; intros bal; simpl; [tauto|].
  intros [-> | Hin].
  - eexists. left. reflexivity.
  - destruct (IH (PrimFloat.add bal (RecurringTransaction.amount tx0)) Hin) as [b Hb].
    exists b. right. exact Hb.
Qed.

Lemma same_definition_refl (tx : RecurringTransaction.t) : same_definition tx tx.
Proof. unfold same_definition. auto. Qed.

Lemma same_definition_after_day (day : date) (a b : RecurringTransaction.t) :
  same_definition a b -> same_definition a (after_day day b).
Proof.
  unfold after_day. destruct (RecurringTransaction.is_due b day); [|auto].
  unfold same_definition, advanced. simpl. auto.
Qed.

(** The collection keeps its transactions in their places all along. *)
Lemma reaches_same_definitions (l0 l : Ledger.t) :
  ledger_ok l0 -> reaches l0 l ->
  Forall2 same_definition (Ledger.recurring_transactions l0)
    (Ledger.recurring_transactions l).
Proof.
  intros Hok Hreach.
  apply (reaches_ind_ok l0
           (fun l => Forall2 same_definition (Ledger.recurring_transactions l0)
                       (Ledger.recurring_transactions l))); auto.
  - apply Forall_Forall2_diag, Forall_forall. intros tx _. apply same_definition_refl.
  - intros l1 _ _ H. unfold after_pass, Ledger.date_advance. simpl.
    apply Forall2_fmap_r. eapply Forall2_impl; [exact H|].
    intros a b. apply same_definition_after_day.
Qed.

End Postings.

(** C5.  The transaction collection holds the transactions in the order of
    the rows of the input all along a run: the i-th one is the transaction
    constructed from the i-th row, whatever its next date has become.  On
    any simulated day the pass through the loop appends to the ledger the
    entries of the transactions due that day and nothing else, in the order
    in which the collection holds them: the entry of the j-th of them stands
    j places after the end of the ledger as the day found it, and its
    balance is the balance the day started with plus the amounts of the due
    transactions up to it, added in that order. *)
Theorem same_day_postings_keep_input_order {P : Platform} {L : PlatformLaws P}
  (csv : csv_file) (days : Z) (start : float) (l0 l : Ledger.t) :
  Ledger.init csv days start = Ok l0 -> reaches l0 l ->
  let day := Ledger.current_day l in
  let due := due_on day (Ledger.recurring_transactions l) in
  Forall2 (fun row tx => exists tx0, Ledger.import_row row = Ok tx0 /\ same_definition tx0 tx)
    (DictReader_rows csv) (Ledger.recurring_transactions l)
  /\ exists l',
       Ledger.run_loop_body l = Ok l'
       /\ length (Ledger.transaction_log l')
          = (length (Ledger.transaction_log l) + length due)%nat
       /\ take (length (Ledger.transaction_log l)) (Ledger.transaction_log l')
          = Ledger.transaction_log l
       /\ (forall j tx, due !! j = Some tx ->
             Ledger.transaction_log l' !! (length (Ledger.transaction_log l) + j)%nat
             = Some (LedgerEntry.mk day (RecurringTransaction.name tx)
                       (RecurringTransaction.amount tx)
                       (add_all (Ledger.current_balance l)
                          (map RecurringTransaction.amount (take (S j) due)))))
       /\ Ledger.current_balance l'
          = add_all (Ledger.current_balance l) (map RecurringTransaction.amount due).
Proof.
  intros Hinit Hreach day due.
  pose proof (init_ok _ _ _ _ Hinit) as Hok0.
  pose proof (reaches_ok _ _ Hok0 Hreach) as Hok.
  split.
  - destruct (init_spec _ _ _ _ Hinit) as (txs & _ & Hrows & E).
    pose proof (reaches_same_definitions _ _ Hok0 Hreach) as Hsame.
    rewrite E in Hsame at 1. simpl in Hsame.
    eapply Forall2_trans; [|exact Hrows | exact Hsame].
    intros row tx0 tx H1 H2. exists tx0. auto.
  - exists (after_pass l). split; [apply run_loop_body_after_pass, Hok|].
    unfold after_pass, Ledger.date_advance. simpl. fold day. fold due.
    split; [|split; [|split]].
    + rewrite length_app, length_post_all. reflexivity.
    + apply take_app_length.
    + intros j tx Hj. rewrite lookup_app_r by lia.
      replace (length (Ledger.transaction_log l) + j - length (Ledger.transaction_log l))%nat
        with j by lia.
      apply post_all_lookup, Hj.
    + unfold post_balance, add_all. generalize (Ledger.current_balance l).
      induction due as [|tx due' IH]; intros b; simpl; auto.
Qed.

(* ===================================================================== *)
(** * The horizon                                                         *)
(* ===================================================================== *)

Section Horizon.
Context {P : Platform} {L : PlatformLaws P}.
Import datetime.

Lemma is_active_ordinal (l : Ledger.t) :
  valid (Ledger.current_day l) -> valid (Ledger.end_day l) ->
  (Ledger.is_active l = true
   <-> toordinal (Ledger.current_day l) <= toordinal (Ledger.end_day l)).
Proof.
  intros Hc He. unfold Ledger.is_active. rewrite leb_le. apply date_le_ordinal; assumption.
Qed.

Lemma iter_after_pass_succ (k : nat) (l : Ledger.t) :
  Nat.iter (S k) after_pass l = Nat.iter k after_pass (after_pass l).
Proof. apply Nat.iter_succ_r. Qed.

Lemma iter_after_pass_S (k : nat) (l : Ledger.t) :
  Nat.iter (S k) after_pass l = after_pass (Nat.iter k after_pass l).
Proof. reflexivity. Qed.

Lemma iter_after_pass_ok (k : nat) (l : Ledger.t) :
  ledger_ok l -> ledger_ok (Nat.iter k after_pass l).
Proof. intros H. induction k as [|k IH]; simpl; [exact H | apply after_pass_ok, IH]. Qed.

Lemma iter_after_pass_end_day (k : nat) (l : Ledger.t) :
  Ledger.end_day (Nat.iter k after_pass l) = Ledger.end_day l.
Proof. induction k as [|k IH]; simpl; [reflexivity | exact IH]. Qed.

(** Each pass moves the current day one day on. *)
Lemma iter_after_pass_current_day (k : nat) (l : Ledger.t) :
  ledger_ok l ->
  Ledger.current_day (Nat.iter k after_pass l)
  = add_days (Ledger.current_day l) (Z.of_nat k).
Proof.
  intros Hok. induction k as [|k IH].
  - simpl. symmetry. apply add_days_0, Hok.
  - rewrite iter_after_pass_S.
    rewrite current_day_after_pass by apply (iter_after_pass_ok k l Hok).
    rewrite IH, add_days_add_days by (try apply Hok; lia). f_equal. lia.
Qed.

Lemma passes_iter (k : nat) (l : Ledger.t) :
  ledger_ok l -> passes k l = Ok (Nat.iter k after_pass l).
Proof.
  revert l. induction k as [|k IH]; intros l Hok; [reflexivity|].
  cbn [passes]. rewrite run_loop_body_after_pass by exact Hok. cbn [mbind outcome_bind].
  rewrite IH by apply after_pass_ok, Hok. rewrite iter_after_pass_succ. reflexivity.
Qed.

(** [run_loop] makes exactly the passes that are left up to the end day,
    that day included, whenever it is given at least that many. *)
Lemma run_loop_iter (n : nat) :
  forall (l : Ledger.t) (fuel : nat),
    ledger_ok l -> valid (Ledger.end_day l) ->
    toordinal (Ledger.end_day l) + 1 = toordinal (Ledger.current_day l) + Z.of_nat n ->
    (n <= fuel)%nat ->
    Ledger.run_loop fuel l = Ok (Nat.iter n after_pass l).
Proof.
  induction n as [|n IH]; intros l fuel Hok Hend Hgap Hfuel.
  - assert (Hact : Ledger.is_active l = false).
    { apply not_true_is_false. rewrite is_active_ordinal by (try apply Hok; assumption). lia. }
    destruct fuel; simpl; rewrite Hact; reflexivity.
  - assert (Hact : Ledger.is_active l = true).
    { apply is_active_ordinal; try apply Hok; try assumption. lia. }
    destruct fuel as [|fuel]; [lia|]. cbn [Ledger.run_loop]. rewrite Hact.
    rewrite run_loop_body_after_pass by exact Hok. cbn [mbind outcome_bind].
    rewrite iter_after_pass_succ. apply IH.
    + apply after_pass_ok, Hok.
    + exact Hend.
    + rewrite current_day_after_pass by apply Hok.
      rewrite toordinal_add_days by (try apply Hok; lia).
      change (Ledger.end_day (after_pass l)) with (Ledger.end_day l). lia.
    + lia.
Qed.

(** A transaction stays as it is for as long as its next date is ahead. *)
Lemma iter_after_pass_keeps (k : nat) (l : Ledger.t) (i : nat)
  (tx : RecurringTransaction.t) :
  ledger_ok l -> Ledger.recurring_transactions l !! i = Some tx ->
  toordinal (Ledger.current_day l) + Z.of_nat k
  <= toordinal (RecurringTransaction.next_date tx) ->
  Ledger.recurring_transactions (Nat.iter k after_pass l) !! i = Some tx.
Proof.
  intros Hok Hi. induction k as [|k IH]; intros Hgap; [exact Hi|].
  rewrite iter_after_pass_S. unfold after_pass at 1, Ledger.date_advance. simpl.
  change (map (after_day ?d) ?l) with (after_day d <$> l).
  rewrite list_lookup_fmap, IH by lia. simpl. f_equal.
  unfold after_day.
  destruct (RecurringTransaction.is_due tx _) eqn:Edue; [|reflexivity].
  apply eqb_eq in Edue. rewrite iter_after_pass_current_day in Edue by exact Hok.
  rewrite Edue, toordinal_add_days in Hgap by (try apply Hok; lia). lia.
Qed.

End Horizon.


(** C10.  In every state of a run, at the start of each pass and after the
    last, no transaction has its next date before the current day.  The pass
    that starts there runs to completion and moves the current day on by one
    day; a transaction whose next date is the current day gets its entry
    among the entries the pass appends and moves to its next date plus one
    recurrence step, which is after the current day; every other transaction
    stays as it is, with its next date after the current day.  So a next
    date is only ever left behind by the pass that posts it. *)
Theorem no_due_date_is_passed_over {P : Platform} {L : PlatformLaws P}
  (csv : csv_file) (days : Z) (start : float) (l0 l : Ledger.t) :
  Ledger.init csv days start = Ok l0 -> reaches l0 l ->
  Forall (fun tx => date_le (Ledger.current_day l) (RecurringTransaction.next_date tx))
    (Ledger.recurring_transactions l)
  /\ exists l',
       Ledger.run_loop_body l = Ok l'
       /\ Ledger.current_day l' = datetime.add_days (Ledger.current_day l) 1
       /\ forall i tx,
            Ledger.recurring_transactions l !! i = Some tx ->
            if RecurringTransaction.is_due tx (Ledger.current_day l) then
              (exists b,
                 In (LedgerEntry.mk (Ledger.current_day l) (RecurringTransaction.name tx)
                       (RecurringTransaction.amount tx) b)
                   (drop (length (Ledger.transaction_log l)) (Ledger.transaction_log l')))
              /\ Ledger.recurring_transactions l' !! i = Some (advanced tx)
              /\ RecurringTransaction.next_date (advanced tx)
                 = RecurringTransaction.next_date tx +rd RecurringTransaction.frequency tx
              /\ date_lt (Ledger.current_day l) (RecurringTransaction.next_date (advanced tx))
            else
              Ledger.recurring_transactions l' !! i = Some tx
              /\ date_lt (Ledger.current_day l) (RecurringTransaction.next_date tx).
Proof.
  intros Hinit Hreach.
  pose proof (reaches_ok _ _ (init_ok _ _ _ _ Hinit) Hreach) as Hok.
  destruct Hok as (Hday & Htoday & Htxs).
  split.
  - eapply Forall_impl; [exact Htxs|]. intros tx (_ & _ & H). exact H.
  - exists (after_pass l).
    split; [apply run_loop_body_after_pass; exact (conj Hday (conj Htoday Htxs))|].
    split; [apply current_day_after_pass, Hday|].
    intros i tx Hi.
    assert (Htx : tx_ok (Ledger.current_day l) tx).
    { rewrite Forall_forall in Htxs. apply Htxs, list_elem_of_lookup. exists i. exact Hi. }
    destruct Htx as (Hv & Hr & Hle).
    assert (Hi' : Ledger.recurring_transactions (after_pass l) !! i
                  = Some (after_day (Ledger.current_day l) tx)).
    { unfold after_pass, Ledger.date_advance. simpl.
      change (map (after_day ?d) ?l) with (after_day d <$> l).
      rewrite list_lookup_fmap, Hi. reflexivity. }
    unfold after_day in Hi'.
    destruct (RecurringTransaction.is_due tx (Ledger.current_day l)) eqn:Edue.
    + split; [|split; [exact Hi' | split; [reflexivity|]]].
      * assert (Hdue : In tx (due_on (Ledger.current_day l) (Ledger.recurring_transactions l))).
        { apply filter_In. split; [|exact Edue].
          apply list_elem_of_In, list_elem_of_lookup. exists i. exact Hi. }
        destruct (post_all_elem (Ledger.current_balance l) (Ledger.current_day l) _ _ Hdue)
          as [b Hb].
        exists b. unfold after_pass, Ledger.date_advance. simpl.
        rewrite drop_app_length. exact Hb.
      * apply eqb_eq in Edue. rewrite <- Edue. unfold advanced. simpl.
        apply radd_lt; assumption.
    + split; [exact Hi'|].
      destruct Hle as [Hlt | Heq]; [exact Hlt|].
      assert (datetime.eqb (RecurringTransaction.next_date tx) (Ledger.current_day l) = true)
        by (apply eqb_eq; congruence).
      unfold RecurringTransaction.is_due in Edue. congruence.
Qed.

(* ===================================================================== *)
(** * Input fields and export                                             *)
(* ===================================================================== *)

(** C6.  Loading a file whose field set is not exactly the required one
    fails fatally: with the diagnostic line of [validate_input_fields] and
    status 1 (or, for a file without a header line, the uncaught [TypeError]
    of that function).  That is the outcome of [validate_input_fields], of
    [import_transactions] and of the construction of the ledger object,
    whatever the rows are: no row is read and no transaction constructed.
    A header that lacks a required field and a header with a field that is
    not required both have a wrong field set; a header with exactly the
    required fields passes. *)
Theorem wrong_field_set_aborts_loading {P : Platform} (csv : csv_file) (days : Z)
  (start : float) :
  (forall fieldnames, header csv = Some fieldnames ->
                      list_to_set fieldnames <> REQUIRED_INPUT_FIELDS) ->
  Ledger.validate_input_fields csv = field_failure csv
  /\ Ledger.import_transactions csv = field_failure csv
  /\ Ledger.init csv days start = field_failure csv
  /\ (forall fieldnames f,
        (f ∈ REQUIRED_INPUT_FIELDS /\ f ∉ fieldnames)
        \/ (f ∈ fieldnames /\ f ∉ REQUIRED_INPUT_FIELDS) ->
        list_to_set fieldnames <> REQUIRED_INPUT_FIELDS)
  /\ (forall fieldnames records,
        list_to_set fieldnames = REQUIRED_INPUT_FIELDS ->
        Ledger.validate_input_fields (mk_csv (Some fieldnames) records) = Ok tt).
Proof.
  intros Hwrong.
  assert (Hval : Ledger.validate_input_fields csv = field_failure csv).
  { unfold Ledger.validate_input_fields, field_failure, exit_application.
    destruct (header csv) as [fieldnames|]; [|reflexivity].
    rewrite bool_decide_eq_false_2 by (apply Hwrong; reflexivity). reflexivity. }
  assert (Himp : Ledger.import_transactions csv = field_failure csv).
  { unfold Ledger.import_transactions. rewrite Hval. unfold field_failure.
    destruct (header csv); reflexivity. }
  split; [exact Hval | split; [exact Himp | split; [|split]]].
  - unfold Ledger.init. rewrite Himp. unfold field_failure.
    destruct (header csv); reflexivity.
  - intros fieldnames f [[Hreq Hnot] | [Hin Hnot]] E.
    + rewrite <- E in Hreq. apply elem_of_list_to_set in Hreq. contradiction.
    + apply Hnot. rewrite <- E. apply elem_of_list_to_set. exact Hin.
  - intros fieldnames records E. unfold Ledger.validate_input_fields. simpl.
    rewrite bool_decide_eq_true_2 by exact E. reflexivity.
Qed.

(** C2, as the code has it.  [export_ledger] on an empty ledger sequence
    fails with the uncaught [IndexError] of [ledger_data[0]], before the
    destination is opened and whatever writing to it would have done; it
    does not go through [exit_application].  The diagnostic line with exit
    status 1 is what a failure to write a ledger that has entries ends in. *)
Theorem export_of_empty_ledger_raises {P : Platform} (self : Ledger.t) (path : string) :
  Ledger.transaction_log self = [] ->
  Ledger.export_ledger self path = Raise IndexError
  /\ forall (other : Ledger.t) (entry : LedgerEntry.t) (rest : list LedgerEntry.t),
       Ledger.transaction_log other = entry :: rest ->
       match write_csv path ["date"; "name"; "amount"; "balance"]%string
               (map LedgerEntry.to_dict (entry :: rest)) with
       | Written => Ledger.export_ledger other path = Ok tt
       | FileNotFoundError =>
         Ledger.export_ledger other path
         = Exit "Unable to write to the export location" 1
       | OtherException e =>
         Ledger.export_ledger other path
         = Exit ("An unexpected error occurred: " +:+ e) 1
       end.
Proof.
  intros Hempty. split.
  - unfold Ledger.export_ledger. rewrite Hempty. reflexivity.
  - intros other entry rest Hlog. unfold Ledger.export_ledger. rewrite Hlog. simpl.
    destruct (write_csv path _ _); reflexivity.
Qed.

(* ===================================================================== *)
(** * The sample interpreter and the runs on it                           *)
(* ===================================================================== *)

Lemma valid_b_valid (d : date) : Sample.valid_b d = true -> datetime.valid d.
Proof.
  unfold Sample.valid_b, datetime.valid.
  rewrite !andb_true_iff, !Z.leb_le. tauto.
Qed.

Lemma parse_iso_valid (s : string) (d : date) :
  Sample.parse_iso s = Some d -> datetime.valid d.
Proof.
  unfold Sample.parse_iso.
  destruct (list_ascii_of_string s) as [|y1 [|y2 [|y3 [|y4 [|h1 [|m1 [|m2 [|h2 [|d1 [|d2 [|]]]]]]]]]]];
    try discriminate.
  destruct (_ && _); [|discriminate].
  destruct (Sample.number 0 [y1; y2; y3; y4]) as [y|]; [|discriminate].
  destruct (Sample.number 0 [m1; m2]) as [m|]; [|discriminate].
  destruct (Sample.number 0 [d1; d2]) as [dd|]; [|discriminate].
  simpl. destruct (Sample.valid_b _) eqn:E; [|discriminate].
  intros [= <-]. apply valid_b_valid, E.
Qed.

#[global] Instance sample_laws : PlatformLaws Sample.platform.
Proof.
  split.
  - apply valid_b_valid. reflexivity.
  - exact parse_iso_valid.
Qed.

(** C1 as the specification words it fails on the scenario of section 8
    (starting balance 1000.00, horizon 5 days, one weekly expense of 50 due
    today): the Opening Balance entry has the balance 1000.00, and the
    starting balance plus the amounts of the entries 1 to 1 is 2000.00. *)
Lemma opening_amount_is_not_added_again :
  exists l,
    simulate 6 Sample.weekly_expense 5 1000%float = Ok l
    /\ ~ balance_is_start_plus_amounts_1_to_k 1000%float (Ledger.transaction_log l).
Proof.
  eexists. split; [vm_compute; reflexivity|].
  intros H. specialize (H 0%nat _ eq_refl).
  apply (f_equal (fun x => PrimFloat.eqb x 1000%float)) in H.
  vm_compute in H. discriminate.
Qed.

(** The run of that scenario: every balance is the starting balance plus
    the amounts of the entries after the first. *)
Lemma running_balance_from_second_entry_sample :
  exists l,
    simulate 6 Sample.weekly_expense 5 1000%float = Ok l
    /\ balance_is_start_plus_amounts_2_to_k 1000%float (Ledger.transaction_log l).
Proof.
  eexists. split; [vm_compute; reflexivity|].
  refine (proj2 (running_balance_from_second_entry 6 Sample.weekly_expense 5 1000%float _ _)).
  vm_compute. reflexivity.
Defined.

(** C2 as the specification words it fails on a ledger object without
    entries: the export raises, it does not exit with a diagnostic line. *)
Lemma export_of_empty_ledger_does_not_exit :
  ~ @export_of_empty_ledger_prints_and_exits Sample.platform.
Proof.
  intros H. destruct (H Sample.emptied_ledger "ledger.csv"%string eq_refl) as [message Hm].
  vm_compute in Hm. discriminate.
Qed.

(** The export of that ledger object raises [IndexError]. *)
Lemma export_of_empty_ledger_raises_sample :
  Ledger.export_ledger Sample.emptied_ledger "ledger.csv" = Raise IndexError.
Proof.
  exact (proj1 (export_of_empty_ledger_raises Sample.emptied_ledger "ledger.csv"%string
                  eq_refl)).
Defined.

(** A weekly expense entered for 17 January 2024 and loaded on the 29th:
    its next date is a whole number of weeks after the 17th and not before
    the 29th. *)
Lemma next_date_rolls_forward_sample :
  exists n,
    RecurringTransaction.init (Some "B") (Some "expense") (Some "19.75") (Some "weekly")
      (Some "2024-01-17")%string
    = Ok (RecurringTransaction.mk (Some "B"%string) "-" (Some "expense"%string)
            (-19.75)%float (relativedelta.make 0 0 0 1)
            (steps n (relativedelta.make 0 0 0 1) (datetime.mkdate 2024 1 17)))
    /\ date_le today (steps n (relativedelta.make 0 0 0 1) (datetime.mkdate 2024 1 17)).
Proof.
  destruct (next_date_rolls_forward_by_whole_steps
              (Some "B"%string) (Some "expense"%string) (Some "19.75"%string)
              (Some "weekly"%string) "2024-01-17" (datetime.mkdate 2024 1 17)
              (Some "expense"%string) "-" (-19.75)%float (relativedelta.make 0 0 0 1)
              ltac:(vm_compute; reflexivity) ltac:(vm_compute; reflexivity)
              ltac:(vm_compute; reflexivity) ltac:(vm_compute; reflexivity))
    as (n & Hinit & Hle & _).
  exists n. split; [exact Hinit | exact Hle].
Defined.


(** The input with A and B both due on day 3: the run reaches 31 January,
    and the pass of that day leaves a ledger of three entries. *)
Lemma same_day_postings_sample :
  exists l0 l l',
    Ledger.init Sample.two_on_day_3 9 1000%float = Ok l0
    /\ reaches l0 l
    /\ Ledger.current_day l = datetime.mkdate 2024 1 31
    /\ Ledger.run_loop_body l = Ok l'
    /\ length (Ledger.transaction_log l') = 3%nat.
Proof.
  evar (l0 : Ledger.t).
  assert (Hinit : Ledger.init Sample.two_on_day_3 9 1000%float = Ok l0)
    by (subst l0; vm_compute; reflexivity).
  evar (l : Ledger.t).
  assert (Hreach : reaches l0 l).
  { subst l. eapply reaches_pass.
    - eapply reaches_pass.
      + apply reaches_start.
      + vm_compute. reflexivity.
      + vm_compute. reflexivity.
    - vm_compute. reflexivity.
    - vm_compute. reflexivity. }
  destruct (same_day_postings_keep_input_order Sample.two_on_day_3 9 1000%float l0 l
              Hinit Hreach)
    as (_ & l' & Hbody & Hlen' & _).
  exists l0, l, l'.
  split; [exact Hinit | split; [exact Hreach | split; [|split; [exact Hbody|]]]].
  - vm_compute. reflexivity.
  - rewrite Hlen'. vm_compute. reflexivity.
Defined.

(** The scenario of section 8 with [transaction_type] missing from the
    header: the ledger object is not constructed. *)
Lemma wrong_field_set_aborts_loading_sample :
  Ledger.init Sample.missing_field 5 1000%float
  = Exit "Error: Input file does not contain the correct fields." 1.
Proof.
  refine (proj1 (proj2 (proj2
            (wrong_field_set_aborts_loading Sample.missing_field 5 1000%float _)))).
  intros fieldnames [= <-].
  apply (bool_decide_eq_false_1
           (list_to_set ["name"; "frequency"; "next_date"; "amount"]%string
            = REQUIRED_INPUT_FIELDS)).
  vm_compute. reflexivity.
Defined.

(** The ledger object of the scenario of section 8 as constructed. *)
Lemma opening_balance_is_first_sample :
  exists l0,
    Ledger.init Sample.weekly_expense 5 1000%float = Ok l0
    /\ Ledger.transaction_log l0
       = [LedgerEntry.mk (datetime.mkdate 2024 1 29) (Some "Opening Balance"%string)
            1000%float 1000%float].
Proof.
  assert (Hinit : exists l0, Ledger.init Sample.weekly_expense 5 1000%float = Ok l0)
    by (eexists; vm_compute; reflexivity).
  destruct Hinit as [l0 Hinit]. exists l0. split; [exact Hinit|].
  exact (proj1 (opening_balance_is_first Sample.weekly_expense 5 1000%float l0 Hinit)).
Defined.

(** On day 3 of the run with A and B no next date is before the current
    day. *)
Lemma no_due_date_is_passed_over_sample :
  exists l0 l,
    Ledger.init Sample.two_on_day_3 9 1000%float = Ok l0
    /\ reaches l0 l
    /\ Ledger.current_day l = datetime.mkdate 2024 1 31
    /\ Forall (fun tx => date_le (Ledger.current_day l) (RecurringTransaction.next_date tx))
         (Ledger.recurring_transactions l).
Proof.
  evar (l0 : Ledger.t).
  assert (Hinit : Ledger.init Sample.two_on_day_3 9 1000%float = Ok l0)
    by (subst l0; vm_compute; reflexivity).
  evar (l : Ledger.t).
  assert (Hreach : reaches l0 l).
  { subst l. eapply reaches_pass.
    - eapply reaches_pass.
      + apply reaches_start.
      + vm_compute. reflexivity.
      + vm_compute. reflexivity.
    - vm_compute. reflexivity.
    - vm_compute. reflexivity. }
  exists l0, l.
  split; [exact Hinit | split; [exact Hreach | split; [vm_compute; reflexivity|]]].
  exact (proj1 (no_due_date_is_passed_over Sample.two_on_day_3 9 1000%float l0 l
                  Hinit Hreach)).
Defined.

(** The scenarios of section 8, run on the model. *)
Example scenario_weekly_expense :
  (l ← simulate 6 Sample.weekly_expense 5 1000%float; mret (Ledger.transaction_log l))
  = Ok [ LedgerEntry.mk (datetime.mkdate 2024 1 29) (Some "Opening Balance"%string)
           1000%float 1000%float;
         LedgerEntry.mk (datetime.mkdate 2024 1 29) (Some "Gym"%string)
           (-50)%float 950%float ].
Proof. vm_compute. reflexivity. Qed.

Example scenario_two_on_day_3 :
  (l ← simulate 10 Sample.two_on_day_3 9 1000%float; mret (Ledger.transaction_log l))
  = Ok [ LedgerEntry.mk (datetime.mkdate 2024 1 29) (Some "Opening Balance"%string)
           1000%float 1000%float;
         LedgerEntry.mk (datetime.mkdate 2024 1 31) (Some "A"%string)
           1200%float 2200%float;
         LedgerEntry.mk (datetime.mkdate 2024 1 31) (Some "B"%string)
           (-19.75)%float 2180.25%float;
         LedgerEntry.mk (datetime.mkdate 2024 2 7) (Some "B"%string)
           (-19.75)%float 2160.5%float ].
Proof. vm_compute. reflexivity. Qed.

Example scenario_missing_field :
  simulate 10 Sample.missing_field 9 1000%float
  = Exit "Error: Input file does not contain the correct fields." 1.
Proof. vm_compute. reflexivity. Qed.

(** With too few passes allowed the model says so instead of returning a
    ledger. *)
Example scenario_bound_too_small :
  simulate 5 Sample.weekly_expense 5 1000%float = OutOfFuel.
Proof. vm_compute. reflexivity. Qed.

(** Month ends: 31 January plus one month, and 29 February plus one year. *)
Example scenario_month_end :
  datetime.mkdate 2023 1 31 +rd relativedelta.make 0 1 0 0 = datetime.mkdate 2023 2 28
  /\ datetime.mkdate 2024 1 31 +rd relativedelta.make 0 1 0 0 = datetime.mkdate 2024 2 29
  /\ datetime.mkdate 2024 2 29 +rd relativedelta.make 1 0 0 0 = datetime.mkdate 2025 2 28
  /\ datetime.mkdate 2024 12 31 +rd relativedelta.make 0 0 1 0 = datetime.mkdate 2025 1 1.
Proof. vm_compute. repeat split; reflexivity. Qed.

(* ===================================================================== *)
(** * Construction of a transaction, field by field                       *)
(* ===================================================================== *)

Section Construction.
Context {P : Platform}.

Lemma transaction_type_setter_accepts (self_name value : cell) :
  cell_in value ["income"; "expense"]%string = true ->
  exists sign,
    RecurringTransaction.transaction_type_setter self_name value = Ok (value, sign)
    /\ ((value = Some "income"%string /\ sign = "+"%string)
        \/ (value = Some "expense"%string /\ sign = "-"%string)).
Proof.
  unfold RecurringTransaction.transaction_type_setter. intros H. rewrite H. simpl.
  destruct value as [v|]; [|discriminate]. simpl in *.
  destruct (String.eqb v "income") eqn:E1.
  - apply String.eqb_eq in E1. subst v. eexists. split; [reflexivity | left; auto].
  - destruct (String.eqb v "expense") eqn:E2; [|discriminate].
    apply String.eqb_eq in E2. subst v. eexists. split; [reflexivity | right; auto].
Qed.

Lemma frequency_setter_accepts (self_name value : cell) :
  cell_in value RecurringTransaction.valid_freq = true ->
  exists r, RecurringTransaction.frequency_setter self_name value = Ok r.
Proof.
  unfold RecurringTransaction.frequency_setter. intros H. rewrite H. simpl.
  destruct value as [v|]; [|discriminate].
  unfold cell_in, RecurringTransaction.valid_freq in H. simpl in *.
  repeat (destruct (String.eqb v _); [eexists; reflexivity|]). discriminate.
Qed.

End Construction.

(** X1.  The constructor checks the fields in the order kind, amount,
    frequency, next date, and the first one that is wrong decides how the
    program ends: a kind other than income or expense, an amount that does
    not parse, a frequency outside the seven categories and a date that does
    not parse each end it with status 1 and their own line naming the
    transaction, while a missing amount or next date (a row shorter than the
    header) raises [TypeError]. *)
Theorem construction_reports_first_bad_field {P : Platform}
  (name kind amount frequency next_date : cell) :
  (cell_in kind ["income"; "expense"]%string = false ->
   RecurringTransaction.init name kind amount frequency next_date
   = Exit ("Transaction_type for " +:+ str name +:+ " must be 'income' or 'expense'.") 1)
  /\ (cell_in kind ["income"; "expense"]%string = true ->
      (amount = None ->
       RecurringTransaction.init name kind amount frequency next_date = Raise TypeError)
      /\ (forall s, amount = Some s -> py_float s = None ->
            RecurringTransaction.init name kind amount frequency next_date
            = Exit ("Amount of '" +:+ s +:+ "' for " +:+ str name +:+ " is invalid.") 1)
      /\ (forall s x, amount = Some s -> py_float s = Some x ->
            (cell_in frequency RecurringTransaction.valid_freq = false ->
             RecurringTransaction.init name kind amount frequency next_date
             = Exit ("Invalid frequency for " +:+ str name +:+ ".") 1)
            /\ (cell_in frequency RecurringTransaction.valid_freq = true ->
                (next_date = None ->
                 RecurringTransaction.init name kind amount frequency next_date
                 = Raise TypeError)
                /\ (forall d, next_date = Some d -> fromisoformat d = None ->
                      RecurringTransaction.init name kind amount frequency next_date
                      = Exit ("next_date for " +:+ str name
                              +:+ " is in an invalid format. Use YYYY-MM-DD.") 1)))).
Proof.
  split.
  - intros H. unfold RecurringTransaction.init, RecurringTransaction.transaction_type_setter.
    rewrite H. reflexivity.
  - intros Hkind.
    destruct (transaction_type_setter_accepts name kind Hkind) as (sign & Hk & _).
    unfold RecurringTransaction.init. rewrite Hk. cbn [mbind outcome_bind].
    split; [|split].
    + intros ->. reflexivity.
    + intros s -> Hs. unfold RecurringTransaction.amount_setter. rewrite Hs. reflexivity.
    + intros s x -> Hs. unfold RecurringTransaction.amount_setter. rewrite Hs.
      assert (Ha : exists a,
                 (if cell_eqb kind "expense"
                  then Ok (PrimFloat.opp (PrimFloat.abs (py_round2 x)))
                  else Ok (PrimFloat.abs (py_round2 x))) = Ok a)
        by (destruct (cell_eqb kind "expense"); eexists; reflexivity).
      destruct Ha as [a ->]. cbn [mbind outcome_bind].
      split.
      * intros Hf. unfold RecurringTransaction.frequency_setter. rewrite Hf. reflexivity.
      * intros Hf. destruct (frequency_setter_accepts name frequency Hf) as [r ->].
        cbn [mbind outcome_bind]. split.
        -- intros ->. reflexivity.
        -- intros d -> Hd. unfold of_cell, RecurringTransaction.next_date_setter.
           rewrite Hd. reflexivity.
Qed.

(* ===================================================================== *)
(** * Signs of floats                                                     *)
(* ===================================================================== *)

Section FloatSigns.
Import FloatAxioms SpecFloat FloatOps.

(** A float is determined by its description. *)
Lemma float_eq_of_spec (x y : float) : Prim2SF x = Prim2SF y -> x = y.
Proof.
  intros H. rewrite <- (SF2Prim_Prim2SF x), <- (SF2Prim_Prim2SF y), H. reflexivity.
Qed.

Lemma float_abs_not_negative (x : float) :
  PrimFloat.ltb (PrimFloat.abs x) 0%float = false.
Proof.
  rewrite ltb_spec, abs_spec. change (Prim2SF 0%float) with (S754_zero false).
  destruct (Prim2SF x) as [s|s| |s m e]; reflexivity.
Qed.

Lemma float_neg_abs_not_positive (x : float) :
  PrimFloat.ltb 0%float (PrimFloat.opp (PrimFloat.abs x)) = false.
Proof.
  rewrite ltb_spec, opp_spec, abs_spec. change (Prim2SF 0%float) with (S754_zero false).
  destruct (Prim2SF x) as [s|s| |s m e]; reflexivity.
Qed.

Lemma float_abs_abs (x : float) : PrimFloat.abs (PrimFloat.abs x) = PrimFloat.abs x.
Proof.
  apply float_eq_of_spec. rewrite !abs_spec.
  destruct (Prim2SF x) as [s|s| |s m e]; reflexivity.
Qed.

Lemma float_abs_opp (x : float) : PrimFloat.abs (PrimFloat.opp x) = PrimFloat.abs x.
Proof.
  apply float_eq_of_spec. rewrite !abs_spec, opp_spec.
  destruct (Prim2SF x) as [s|s| |s m e]; reflexivity.
Qed.

End FloatSigns.

(** X2.  The amount setter stores the magnitude of the rounded value with
    the sign of the kind: for an expense the stored amount is minus the
    magnitude and is never above zero, for any other kind it is the
    magnitude and is never below zero.  The sign written in the input plays
    no part: two inputs whose rounded values have the same magnitude are
    stored as the same amount. *)
Theorem amount_sign_follows_kind {P : Platform} (name kind : cell) (s : string)
  (x : float) :
  py_float s = Some x ->
  (cell_eqb kind "expense" = true ->
   RecurringTransaction.amount_setter name kind (Some s)
   = Ok (PrimFloat.opp (PrimFloat.abs (py_round2 x)))
   /\ PrimFloat.ltb 0%float (PrimFloat.opp (PrimFloat.abs (py_round2 x))) = false)
  /\ (cell_eqb kind "expense" = false ->
      RecurringTransaction.amount_setter name kind (Some s)
      = Ok (PrimFloat.abs (py_round2 x))
      /\ PrimFloat.ltb (PrimFloat.abs (py_round2 x)) 0%float = false)
  /\ (forall a, RecurringTransaction.amount_setter name kind (Some s) = Ok a ->
                PrimFloat.abs a = PrimFloat.abs (py_round2 x))
  /\ (forall name' t y,
        py_float t = Some y ->
        PrimFloat.abs (py_round2 y) = PrimFloat.abs (py_round2 x) ->
        RecurringTransaction.amount_setter name' kind (Some t)
        = RecurringTransaction.amount_setter name kind (Some s)).
Proof.
  intros Hs. unfold RecurringTransaction.amount_setter. rewrite Hs.
  split; [|split; [|split]].
  - intros ->. split; [reflexivity | apply float_neg_abs_not_positive].
  - intros ->. split; [reflexivity | apply float_abs_not_negative].
  - intros a. destruct (cell_eqb kind "expense"); intros [= <-].
    + rewrite float_abs_opp. apply float_abs_abs.
    + apply float_abs_abs.
  - intros name' t y Ht Habs. rewrite Ht, Habs. reflexivity.
Qed.

Section WellFormed.
Context {P : Platform} {L : PlatformLaws P}.

Lemma frequency_setter_seven (self_name value : cell) (r : relativedelta) :
  RecurringTransaction.frequency_setter self_name value = Ok r -> In r seven_steps.
Proof.
  unfold RecurringTransaction.frequency_setter, exit_application, seven_steps.
  repeat (destruct (_ : bool); try discriminate); intros [= <-]; simpl; tauto.
Qed.

End WellFormed.

(** X3.  Whatever the constructor returns is a valid transaction: it has
    the name given, its kind is income with the sign + and an amount that is
    not below zero or expense with the sign - and an amount that is not above
    zero, its frequency is one of the seven steps, and its next date is a
    date of the calendar that is not before today. *)
Theorem constructed_transaction_is_valid {P : Platform} {L : PlatformLaws P}
  (name kind amount frequency next_date : cell) (tx : RecurringTransaction.t) :
  RecurringTransaction.init name kind amount frequency next_date = Ok tx ->
  RecurringTransaction.name tx = name
  /\ ((RecurringTransaction.transaction_type tx = Some "income"%string
       /\ RecurringTransaction.sign tx = "+"%string
       /\ PrimFloat.ltb (RecurringTransaction.amount tx) 0%float = false)
      \/ (RecurringTransaction.transaction_type tx = Some "expense"%string
          /\ RecurringTransaction.sign tx = "-"%string
          /\ PrimFloat.ltb 0%float (RecurringTransaction.amount tx) = false))
  /\ In (RecurringTransaction.frequency tx) seven_steps
  /\ datetime.valid (RecurringTransaction.next_date tx)
  /\ date_le today (RecurringTransaction.next_date tx).
Proof.
  intros Hinit. pose proof (init_tx_ok _ _ _ _ _ _ Hinit) as (Hv & _ & Hle).
  unfold RecurringTransaction.init in Hinit.
  destruct (RecurringTransaction.transaction_type_setter name kind)
    as [[k sg]| | |] eqn:Ek; simpl in Hinit; try discriminate.
  destruct (RecurringTransaction.amount_setter name k amount)
    as [a| | |] eqn:Ea; simpl in Hinit; try discriminate.
  destruct (RecurringTransaction.frequency_setter name frequency)
    as [r| | |] eqn:Er; simpl in Hinit; try discriminate.
  destruct (RecurringTransaction.next_date_setter name r (of_cell next_date))
    as [d| | |] eqn:Ed; simpl in Hinit; try discriminate.
  injection Hinit as <-. simpl in *.
  split; [reflexivity | split; [|split; [|split; assumption]]].
  - assert (Hin : cell_in kind ["income"; "expense"]%string = true).
    { unfold RecurringTransaction.transaction_type_setter in Ek.
      destruct (cell_in kind _); [reflexivity | discriminate]. }
    destruct (transaction_type_setter_accepts name kind Hin) as (sg' & Hk & Hcase).
    rewrite Hk in Ek. injection Ek as <- <-.
    unfold RecurringTransaction.amount_setter in Ea.
    destruct amount as [s|]; [|discriminate].
    destruct (py_float s) as [x|]; [|discriminate].
    destruct Hcase as [[-> ->] | [-> ->]]; simpl in Ea; injection Ea as <-.
    + left. auto using float_abs_not_negative.
    + right. auto using float_neg_abs_not_positive.
  - exact (frequency_setter_seven _ _ _ Er).
Qed.

(* ===================================================================== *)
(** * Rows of the input                                                   *)
(* ===================================================================== *)

Section Rows.
Context {P : Platform}.

Lemma foldl_insert_values (kvs : list (string * string)) (d : gmap string cell)
  (k : string) :
  (exists v, In (k, v) kvs) \/ (exists v, d !! k = Some (Some v)) ->
  exists v, foldl (fun d kv => <[kv.1 := Some kv.2]> d) d kvs !! k = Some (Some v).
Proof.
  revert d. induction kvs as [|[k0 v0] kvs IH]; intros d H; simpl.
  - destruct H as [[v []] | H]; exact H.
  - apply IH. destruct H as [[v [E | Hin]] | [v Hv]].
    + injection E as -> ->. right. exists v. apply lookup_insert_eq.
    + left. exists v. exact Hin.
    + right. destruct (decide (k0 = k)) as [-> | Hne].
      * exists v0. apply lookup_insert_eq.
      * exists v. rewrite lookup_insert_ne by exact Hne. exact Hv.
Qed.

Lemma foldl_insert_none (ks : list string) (d : gmap string cell) (k : string) :
  In k ks \/ is_Some (d !! k) ->
  is_Some (foldl (fun d k => <[k := None]> d) d ks !! k).
Proof.
  revert d. induction ks as [|k0 ks IH]; intros d H; simpl.
  - destruct H as [[] | H]; exact H.
  - apply IH. destruct H as [[-> | Hin] | Hd].
    + right. rewrite lookup_insert_eq. eauto.
    + left. exact Hin.
    + right. destruct (decide (k0 = k)) as [-> | Hne].
      * rewrite lookup_insert_eq. eauto.
      * rewrite lookup_insert_ne by exact Hne. exact Hd.
Qed.

Lemma foldl_insert_none_values (ks : list string) (d : gmap string cell) (k : string) :
  ~ In k ks -> foldl (fun d k => <[k := None]> d) d ks !! k = d !! k.
Proof.
  revert d. induction ks as [|k0 ks IH]; intros d H; simpl; [reflexivity|].
  rewrite IH by (intros Hin; apply H; right; exact Hin).
  apply lookup_insert_ne. intros ->. apply H. left. reflexivity.
Qed.

Lemma zip_covers {A B : Type} (l : list A) (k : list B) (i : nat) (x : A) :
  l !! i = Some x -> (i < length k)%nat -> exists v, In (x, v) (zip l k).
Proof.
  revert k i. induction l as [|a l IH]; intros k i Hi Hlen; [discriminate|].
  destruct k as [|b k]; [simpl in Hlen; lia|].
  destruct i as [|i]; simpl in *.
  - injection Hi as ->. exists b. left. reflexivity.
  - destruct (IH k i Hi ltac:(lia)) as [v Hv]. exists v. right. exact Hv.
Qed.

(** A row of the reader has every field of the header: a value, or [None]
    where the line was too short. *)
Lemma DictReader_row_has_field (fieldnames row : list string) (key : string) :
  In key fieldnames -> is_Some (DictReader_row fieldnames row !! key).
Proof.
  intros Hin. unfold DictReader_row. apply foldl_insert_none.
  apply list_elem_of_In, list_elem_of_lookup in Hin as [i Hi].
  destruct (Nat.lt_ge_cases i (length row)) as [Hlt | Hge].
  - right. destruct (zip_covers fieldnames row i key Hi Hlt) as [v Hv].
    destruct (foldl_insert_values (zip fieldnames row) ∅ key (or_introl (ex_intro _ v Hv)))
      as [w Hw].
    exists (Some w). exact Hw.
  - left. apply list_elem_of_In, list_elem_of_lookup. exists (i - length row)%nat.
    rewrite lookup_drop. rewrite <- Hi. f_equal. lia.
Qed.

(** And the field has a value when the line is not shorter than the
    header. *)
Lemma DictReader_row_full (fieldnames row : list string) (key : string) :
  In key fieldnames -> (length fieldnames <= length row)%nat ->
  exists v, DictReader_row fieldnames row !! key = Some (Some v).
Proof.
  intros Hin Hlen. unfold DictReader_row.
  rewrite drop_ge by exact Hlen. simpl.
  apply list_elem_of_In, list_elem_of_lookup in Hin as [i Hi].
  assert (Hi' : (i < length row)%nat) by (apply lookup_lt_Some in Hi; lia).
  destruct (zip_covers fieldnames row i key Hi Hi') as [v Hv].
  apply foldl_insert_values. left. exists v. exact Hv.
Qed.

End Rows.

(* ===================================================================== *)
(** * How loading can end                                                 *)
(* ===================================================================== *)

Section LoadingOutcomes.
Context {P : Platform} {L : PlatformLaws P}.

Lemma transaction_type_setter_outcome (name value : cell) :
  (exists r, RecurringTransaction.transaction_type_setter name value = Ok r)
  \/ exits_with_status_1 (RecurringTransaction.transaction_type_setter name value).
Proof.
  unfold RecurringTransaction.transaction_type_setter, exit_application, exits_with_status_1.
  destruct (negb _); [right; eauto|]. destruct (cell_eqb _ _); left; eauto.
Qed.

Lemma amount_setter_outcome (name kind value : cell) :
  (exists a, RecurringTransaction.amount_setter name kind value = Ok a)
  \/ exits_with_status_1 (RecurringTransaction.amount_setter name kind value)
  \/ (RecurringTransaction.amount_setter name kind value = Raise TypeError /\ value = None).
Proof.
  unfold RecurringTransaction.amount_setter, exit_application, exits_with_status_1.
  destruct value as [s|]; [|right; right; auto].
  destruct (py_float s); [|right; left; eauto].
  destruct (cell_eqb _ _); left; eauto.
Qed.

Lemma frequency_setter_outcome (name value : cell) :
  (exists r, RecurringTransaction.frequency_setter name value = Ok r)
  \/ exits_with_status_1 (RecurringTransaction.frequency_setter name value).
Proof.
  destruct (cell_in value RecurringTransaction.valid_freq) eqn:E.
  - left. apply frequency_setter_accepts, E.
  - right. unfold RecurringTransaction.frequency_setter, exit_application,
      exits_with_status_1. rewrite E. simpl. eauto.
Qed.

Lemma next_date_setter_outcome (name value : cell) (r : relativedelta) :
  is_step r ->
  (exists d, RecurringTransaction.next_date_setter name r (of_cell value) = Ok d)
  \/ exits_with_status_1 (RecurringTransaction.next_date_setter name r (of_cell value))
  \/ (RecurringTransaction.next_date_setter name r (of_cell value) = Raise TypeError
      /\ value = None).
Proof.
  intros Hr. destruct value as [s|]; [|right; right; auto]. unfold of_cell.
  destruct (fromisoformat s) as [d|] eqn:Es.
  - left. destruct (next_date_setter_string name r s d Hr Es) as (n & H & _). eauto.
  - right. left. unfold RecurringTransaction.next_date_setter, exit_application,
      exits_with_status_1. rewrite Es. eauto.
Qed.

(** The constructor returns a transaction, or ends the program with status
    1 and a line, or raises [TypeError] on a missing amount or next date. *)
Lemma init_outcome (name kind amount frequency next_date : cell) :
  (exists tx, RecurringTransaction.init name kind amount frequency next_date = Ok tx)
  \/ exits_with_status_1 (RecurringTransaction.init name kind amount frequency next_date)
  \/ (RecurringTransaction.init name kind amount frequency next_date = Raise TypeError
      /\ (amount = None \/ next_date = None)).
Proof.
  unfold RecurringTransaction.init, exits_with_status_1.
  destruct (transaction_type_setter_outcome name kind) as [[[k sg] ->] | [m ->]];
    cbn [mbind outcome_bind]; [|right; left; eauto].
  destruct (amount_setter_outcome name k amount) as [[a ->] | [[m ->] | [-> ->]]];
    cbn [mbind outcome_bind]; [|right; left; eauto | right; right; auto].
  destruct (frequency_setter_outcome name frequency) as [[r Hr] | [m ->]];
    cbn [mbind outcome_bind]; [|right; left; eauto].
  rewrite Hr. cbn [mbind outcome_bind].
  destruct (next_date_setter_outcome name next_date r (frequency_setter_step _ _ _ Hr))
    as [[d ->] | [[m ->] | [-> ->]]];
    cbn [mbind outcome_bind]; [left; eauto | right; left; eauto | right; right; auto].
Qed.

(** [mapM]: all the calls returned, or the first one that did not decides. *)
Lemma mapM_outcome {A B : Type} (f : A -> outcome B) (xs : list A) :
  (exists ys, mapM f xs = Ok ys)
  \/ (exists good bad rest,
        xs = good ++ bad :: rest
        /\ Forall (fun x => exists y, f x = Ok y) good
        /\ ((exists m c, f bad = Exit m c /\ mapM f xs = Exit m c)
            \/ (exists e, f bad = Raise e /\ mapM f xs = Raise e)
            \/ (f bad = OutOfFuel /\ mapM f xs = OutOfFuel))).
Proof.
  induction xs as [|x xs IH]; [left; exists []; reflexivity|].
  simpl. destruct (f x) as [y|m c|e|] eqn:Ex; cbn [mbind outcome_bind].
  - destruct IH as [[ys ->] | (good & bad & rest & -> & Hgood & Hbad)].
    + left. eexists. reflexivity.
    + right. exists (x :: good), bad, rest.
      split; [reflexivity | split; [constructor; eauto|]].
      destruct Hbad as [(m & c & Hb & ->) | [(e & Hb & ->) | [Hb ->]]];
        cbn [mbind outcome_bind]; eauto 8.
  - right. exists [], x, xs. split; [reflexivity | split; [constructor|]]. eauto 8.
  - right. exists [], x, xs. split; [reflexivity | split; [constructor|]]. eauto 8.
  - right. exists [], x, xs. split; [reflexivity | split; [constructor|]]. eauto 8.
Qed.

Lemma mapM_first_failure {A B : Type} (f : A -> outcome B) (good : list A) (bad : A)
  (rest : list A) :
  Forall (fun x => exists y, f x = Ok y) good ->
  (forall m c, f bad = Exit m c -> mapM f (good ++ bad :: rest) = Exit m c)
  /\ (forall e, f bad = Raise e -> mapM f (good ++ bad :: rest) = Raise e).
Proof.
  intros Hgood. induction Hgood as [|x good [y Hy] _ [IH1 IH2]]; simpl.
  - split; intros ? ; [intros c Hb | intros Hb]; rewrite Hb; reflexivity.
  - rewrite Hy. cbn [mbind outcome_bind].
    split; [intros m c Hb; rewrite (IH1 m c Hb) | intros e Hb; rewrite (IH2 e Hb)];
      reflexivity.
Qed.

(** Once the field set has been accepted every row has the five fields. *)
Lemma validated_row_has_fields (csv : csv_file) (row : gmap string cell) (key : string) :
  Ledger.validate_input_fields csv = Ok tt ->
  In row (DictReader_rows csv) -> key ∈ REQUIRED_INPUT_FIELDS ->
  exists v, getitem row key = Ok v /\ row !! key = Some v.
Proof.
  unfold Ledger.validate_input_fields, DictReader_rows, exit_application.
  destruct (header csv) as [fieldnames|]; [|discriminate].
  destruct (bool_decide _) eqn:E; [|discriminate]. intros _ Hrow Hkey.
  apply bool_decide_eq_true_1 in E. rewrite <- E in Hkey.
  apply elem_of_list_to_set, list_elem_of_In in Hkey.
  apply in_map_iff in Hrow as (r & <- & _).
  destruct (DictReader_row_has_field fieldnames r key Hkey) as [v Hv].
  exists v. unfold getitem. rewrite Hv. auto.
Qed.

Lemma import_row_init (csv : csv_file) (row : gmap string cell) :
  Ledger.validate_input_fields csv = Ok tt -> In row (DictReader_rows csv) ->
  exists name kind amount frequency next_date,
    row !! "name"%string = Some name /\ row !! "transaction_type"%string = Some kind
    /\ row !! "amount"%string = Some amount /\ row !! "frequency"%string = Some frequency
    /\ row !! "next_date"%string = Some next_date
    /\ Ledger.import_row row
       = RecurringTransaction.init name kind amount frequency next_date.
Proof.
  intros Hval Hrow.
  assert (Hreq : forall key, In key Sample.fields -> key ∈ REQUIRED_INPUT_FIELDS).
  { intros key Hin. unfold REQUIRED_INPUT_FIELDS. simpl in Hin.
    repeat (destruct Hin as [<- | Hin]; [set_solver|]). destruct Hin. }
  destruct (validated_row_has_fields csv row "name" Hval Hrow) as (n & Hn & Hn');
    [apply Hreq; simpl; tauto|].
  destruct (validated_row_has_fields csv row "transaction_type" Hval Hrow) as (k & Hk & Hk');
    [apply Hreq; simpl; tauto|].
  destruct (validated_row_has_fields csv row "amount" Hval Hrow) as (a & Ha & Ha');
    [apply Hreq; simpl; tauto|].
  destruct (validated_row_has_fields csv row "frequency" Hval Hrow) as (f & Hf & Hf');
    [apply Hreq; simpl; tauto|].
  destruct (validated_row_has_fields csv row "next_date" Hval Hrow) as (d & Hd & Hd');
    [apply Hreq; simpl; tauto|].
  exists n, k, a, f, d. repeat (split; [assumption|]).
  unfold Ledger.import_row. rewrite Hn, Hk, Ha, Hf, Hd. reflexivity.
Qed.

(** The ways in which the construction of the ledger object can end. *)
Lemma init_outcome_cases (csv : csv_file) (days : Z) (start : float) :
  (exists l, Ledger.init csv days start = Ok l)
  \/ (exists message, Ledger.init csv days start = Exit message 1)
  \/ (Ledger.init csv days start = Raise TypeError
      /\ (header csv = None
          \/ exists fieldnames line,
               header csv = Some fieldnames /\ In line (records csv)
               /\ (0 < length line < length fieldnames)%nat)).
Proof.
  unfold Ledger.init, Ledger.import_transactions.
  destruct (Ledger.validate_input_fields csv) as [[]|m c|e|] eqn:Hval.
  - cbn [mbind outcome_bind].
    destruct (mapM_outcome Ledger.import_row (DictReader_rows csv))
      as [[txs ->] | (good & bad & rest & Hrows & _ & Hbad)].
    { cbn [mbind outcome_bind mret outcome_ret]. left. eauto. }
    assert (Hin : In bad (DictReader_rows csv)).
    { rewrite Hrows. apply in_or_app. right. left. reflexivity. }
    destruct (import_row_init csv bad Hval Hin)
      as (n & k & a & f & d & _ & _ & Ha & _ & Hd & Himp).
    rewrite Himp in Hbad.
    destruct (init_outcome n k a f d) as [[tx Htx] | [[m Hm] | [Hraise Hnone]]].
    + rewrite Htx in Hbad.
      destruct Hbad as [(? & ? & ? & _) | [(? & ? & _) | [? _]]]; discriminate.
    + rewrite Hm in Hbad.
      destruct Hbad as [(m' & c & Hb & ->) | [(? & ? & _) | [? _]]]; try discriminate.
      injection Hb as <- <-. cbn [mbind outcome_bind].
      right. left. exists m. reflexivity.
    + rewrite Hraise in Hbad.
      destruct Hbad as [(? & ? & ? & _) | [(e & Hb & ->) | [? _]]]; try discriminate.
      injection Hb as <-. cbn [mbind outcome_bind].
      right. right. split; [reflexivity | right].
      unfold DictReader_rows in Hin.
      destruct (header csv) as [fieldnames|] eqn:Hh; [|destruct Hin].
      apply in_map_iff in Hin as (line & Hline & Hfilter).
      apply filter_In in Hfilter as [Hrec Hne].
      exists fieldnames, line. split; [reflexivity | split; [exact Hrec|]].
      split; [destruct line; [discriminate | simpl; lia]|].
      destruct (Nat.lt_ge_cases (length line) (length fieldnames)) as [Hlt | Hge];
        [exact Hlt|].
      assert (Hreq : forall key, key ∈ REQUIRED_INPUT_FIELDS -> In key fieldnames).
      { intros key Hkey. unfold Ledger.validate_input_fields in Hval. rewrite Hh in Hval.
        destruct (bool_decide _) eqn:E; [|discriminate].
        apply bool_decide_eq_true_1 in E. rewrite <- E in Hkey.
        apply elem_of_list_to_set in Hkey. apply list_elem_of_In, Hkey. }
      subst bad.
      destruct Hnone as [-> | ->].
      * destruct (DictReader_row_full fieldnames line "amount"
                    ltac:(apply Hreq; unfold REQUIRED_INPUT_FIELDS; set_solver) Hge)
          as [v Hv].
        unfold cell in *. rewrite Hv in Ha. discriminate.
      * destruct (DictReader_row_full fieldnames line "next_date"
                    ltac:(apply Hreq; unfold REQUIRED_INPUT_FIELDS; set_solver) Hge)
          as [v Hv].
        unfold cell in *. rewrite Hv in Hd. discriminate.
  - unfold Ledger.validate_input_fields, exit_application in Hval.
    destruct (header csv); [|discriminate].
    destruct (negb _); [|discriminate]. injection Hval as <- <-.
    cbn [mbind outcome_bind]. right. left. eexists. reflexivity.
  - unfold Ledger.validate_input_fields, exit_application in Hval.
    destruct (header csv); [destruct (negb _); discriminate|].
    injection Hval as <-. cbn [mbind outcome_bind].
    right. right. split; [reflexivity | left; reflexivity].
  - unfold Ledger.validate_input_fields, exit_application in Hval.
    destruct (header csv); [destruct (negb _)|]; discriminate.
Qed.

End LoadingOutcomes.

(** X4.  One bad row aborts the whole load: when the field set is right and
    the rows before some row all construct, the way the construction of that
    row ends (a diagnostic line with its status, or an exception) is the way
    [import_transactions] and the construction of the ledger object end,
    whatever rows follow. *)
Theorem bad_row_aborts_the_load {P : Platform} (csv : csv_file) (days : Z)
  (start : float) (good : list (gmap string cell)) (bad : gmap string cell)
  (rest : list (gmap string cell)) :
  Ledger.validate_input_fields csv = Ok tt ->
  DictReader_rows csv = good ++ bad :: rest ->
  Forall (fun row => exists tx, Ledger.import_row row = Ok tx) good ->
  (forall message code, Ledger.import_row bad = Exit message code ->
     Ledger.import_transactions csv = Exit message code
     /\ Ledger.init csv days start = Exit message code)
  /\ (forall e, Ledger.import_row bad = Raise e ->
        Ledger.import_transactions csv = Raise e
        /\ Ledger.init csv days start = Raise e).
Proof.
  intros Hval Hrows Hgood.
  destruct (mapM_first_failure Ledger.import_row good bad rest Hgood) as [H1 H2].
  unfold Ledger.init, Ledger.import_transactions. rewrite Hval, Hrows.
  cbn [mbind outcome_bind].
  split; [intros m c Hb; rewrite (H1 m c Hb) | intros e Hb; rewrite (H2 e Hb)];
    split; reflexivity.
Qed.


(** X6.  A load that succeeds yields one transaction for each line of the
    file that is not blank, in the order of the lines, each with the name
    its line has in the [name] column. *)
Theorem import_keeps_the_lines_in_order {P : Platform} (csv : csv_file)
  (txs : list RecurringTransaction.t) :
  Ledger.import_transactions csv = Ok txs ->
  length txs
  = length (List.filter (fun r => match r with [] => false | _ => true end) (records csv))
  /\ forall i row tx,
       DictReader_rows csv !! i = Some row -> txs !! i = Some tx ->
       Ledger.import_row row = Ok tx
       /\ row !! "name"%string = Some (RecurringTransaction.name tx).
Proof.
  intros Himp.
  assert (Hval : Ledger.validate_input_fields csv = Ok tt).
  { unfold Ledger.import_transactions in Himp.
    destruct (Ledger.validate_input_fields csv) as [[]| | |]; try discriminate.
    reflexivity. }
  assert (Hrows : Forall2 (fun row tx => Ledger.import_row row = Ok tx)
                    (DictReader_rows csv) txs).
  { unfold Ledger.import_transactions in Himp. rewrite Hval in Himp.
    apply mapM_Ok, Himp. }
  split.
  - rewrite <- (Forall2_length _ _ _ Hrows). unfold DictReader_rows.
    unfold Ledger.validate_input_fields in Hval.
    destruct (header csv); [|discriminate]. apply length_map.
  - intros i row tx Hrow Htx.
    pose proof (Forall2_lookup_lr _ _ _ _ _ _ Hrows Hrow Htx) as Hok. cbv beta in Hok.
    split; [exact Hok|].
    assert (Hin : In row (DictReader_rows csv)).
    { apply list_elem_of_In, list_elem_of_lookup. eauto. }
    destruct (import_row_init csv row Hval Hin)
      as (n & k & a & f & d & Hn & _ & _ & _ & _ & Himp').
    rewrite Himp' in Hok. rewrite Hn. f_equal.
    unfold RecurringTransaction.init in Hok.
    destruct (RecurringTransaction.transaction_type_setter n k) as [[? ?]| | |];
      simpl in Hok; try discriminate.
    destruct (RecurringTransaction.amount_setter n _ a); simpl in Hok; try discriminate.
    destruct (RecurringTransaction.frequency_setter n f); simpl in Hok; try discriminate.
    destruct (RecurringTransaction.next_date_setter n _ _); simpl in Hok; try discriminate.
    injection Hok as <-. reflexivity.
Qed.

(* ===================================================================== *)
(** * The order of dates                                                  *)
(* ===================================================================== *)

Section DateOrder.

Lemma date_lt_trans (a b c : date) : date_lt a b -> date_lt b c -> date_lt a c.
Proof. unfold date_lt. destruct a, b, c; simpl. lia. Qed.

Lemma date_le_refl (a : date) : date_le a a.
Proof. right. reflexivity. Qed.

Lemma date_le_trans (a b c : date) : date_le a b -> date_le b c -> date_le a c.
Proof.
  intros [Hab | ->] [Hbc | ->]; unfold date_le; eauto using date_lt_trans.
Qed.

Lemma date_lt_le_trans (a b c : date) : date_lt a b -> date_le b c -> date_lt a c.
Proof. intros Hab [Hbc | ->]; eauto using date_lt_trans. Qed.

Lemma date_le_lt_trans (a b c : date) : date_le a b -> date_lt b c -> date_lt a c.
Proof. intros [Hab | ->] Hbc; eauto using date_lt_trans. Qed.

Lemma date_lt_irrefl (a : date) : ~ date_lt a a.
Proof. unfold date_lt. destruct a; simpl. lia. Qed.

Lemma not_leb_lt (a b : date) : datetime.leb a b = false -> date_lt b a.
Proof.
  intros H. destruct (date_lt_trichotomy a b) as [Hlt | [-> | Hgt]]; [| |exact Hgt].
  - assert (datetime.leb a b = true) by (apply leb_le; left; exact Hlt). congruence.
  - assert (datetime.leb b b = true) by (apply leb_le; right; reflexivity). congruence.
Qed.

End DateOrder.

(* ===================================================================== *)
(** * The ledger over a run                                               *)
(* ===================================================================== *)

Section OverARun.
Context {P : Platform} {L : PlatformLaws P}.

Lemma post_all_date (bal : float) (day : date) (due : list RecurringTransaction.t)
  (e : LedgerEntry.t) :
  In e (post_all bal day due) -> LedgerEntry.date e = day.
Proof.
  revert bal. induction due as [|tx due IH]; intros bal; simpl; [tauto|].
  intros [<- | Hin]; [reflexivity | eapply IH, Hin].
Qed.

Lemma chronological_app (log more : list LedgerEntry.t) (day : date) :
  chronological log ->
  (forall e, In e log -> date_le (LedgerEntry.date e) day) ->
  (forall e, In e more -> LedgerEntry.date e = day) ->
  chronological (log ++ more).
Proof.
  intros Hlog Hold Hnew i j e e' Hij Hi Hj.
  apply lookup_app_Some in Hi. apply lookup_app_Some in Hj.
  destruct Hj as [Hj | [Hlen Hj]].
  - destruct Hi as [Hi | [Hlen' _]].
    + eapply Hlog; eauto.
    + apply lookup_lt_Some in Hj. lia.
  - rewrite (Hnew e') by (apply list_elem_of_In, list_elem_of_lookup; eauto).
    destruct Hi as [Hi | [_ Hi]].
    + apply Hold. apply list_elem_of_In, list_elem_of_lookup. eauto.
    + rewrite (Hnew e) by (apply list_elem_of_In, list_elem_of_lookup; eauto).
      apply date_le_refl.
Qed.

Lemma end_day_after_pass (l : Ledger.t) : Ledger.end_day (after_pass l) = Ledger.end_day l.
Proof. reflexivity. Qed.

Lemma starting_balance_after_pass (l : Ledger.t) :
  Ledger.starting_balance (after_pass l) = Ledger.starting_balance l.
Proof. reflexivity. Qed.

Lemma reaches_end_day (l0 l : Ledger.t) :
  ledger_ok l0 -> reaches l0 l -> Ledger.end_day l = Ledger.end_day l0.
Proof.
  intros Hok Hreach.
  apply (reaches_ind_ok l0 (fun l => Ledger.end_day l = Ledger.end_day l0)); auto.
Qed.

Lemma date_le_add_days (d : date) (n : Z) :
  datetime.valid d -> 0 <= n -> date_le d (datetime.add_days d n).
Proof.
  intros Hd Hn. apply date_le_ordinal; auto using add_days_valid.
  rewrite toordinal_add_days by (auto; lia). lia.
Qed.

(** A pass through the loop from a state of the run appends entries and
    takes none away. *)
Lemma reaches_appends (l l' : Ledger.t) :
  ledger_ok l -> reaches l l' ->
  exists more, Ledger.transaction_log l' = Ledger.transaction_log l ++ more.
Proof.
  intros Hok Hreach.
  apply (reaches_ind_ok l
           (fun l' => exists more,
                Ledger.transaction_log l' = Ledger.transaction_log l ++ more)); auto.
  - exists []. rewrite app_nil_r. reflexivity.
  - intros l1 _ _ [more Hmore]. unfold after_pass, Ledger.date_advance. simpl.
    rewrite Hmore, <- app_assoc. eauto.
Qed.

End OverARun.

(** X7.  All along a run over a horizon that is not negative the ledger
    sequence only grows and stays in chronological order: a later state of
    the run has the ledger of an earlier one as a prefix, no entry is dated
    before an entry that stands before it, and every entry is dated today or
    later and no later than the end day. *)
Theorem ledger_only_grows_in_date_order {P : Platform} {L : PlatformLaws P}
  (csv : csv_file) (days : Z) (start : float) (l0 l : Ledger.t) :
  0 <= days ->
  Ledger.init csv days start = Ok l0 -> reaches l0 l ->
  chronological (Ledger.transaction_log l)
  /\ (forall e, In e (Ledger.transaction_log l) ->
        date_le today (LedgerEntry.date e)
        /\ date_le (LedgerEntry.date e) (Ledger.end_day l0))
  /\ (forall l', reaches l l' ->
        exists more, Ledger.transaction_log l' = Ledger.transaction_log l ++ more).
Proof.
  intros Hdays Hinit Hreach.
  pose proof (init_ok _ _ _ _ Hinit) as Hok0.
  pose proof (reaches_ok _ _ Hok0 Hreach) as Hok.
  assert (H : ledger_ok l
              /\ (Ledger.end_day l = Ledger.end_day l0
                  /\ chronological (Ledger.transaction_log l)
                  /\ forall e, In e (Ledger.transaction_log l) ->
                       date_le today (LedgerEntry.date e)
                       /\ date_le (LedgerEntry.date e) (Ledger.current_day l)
                       /\ date_le (LedgerEntry.date e) (Ledger.end_day l0))).
  { apply (reaches_ind_ok l0
             (fun l => Ledger.end_day l = Ledger.end_day l0
                  /\ chronological (Ledger.transaction_log l)
                  /\ forall e, In e (Ledger.transaction_log l) ->
                       date_le today (LedgerEntry.date e)
                       /\ date_le (LedgerEntry.date e) (Ledger.current_day l)
                       /\ date_le (LedgerEntry.date e) (Ledger.end_day l0))); auto.
    - destruct (init_spec _ _ _ _ Hinit) as (txs & _ & _ & ->). simpl.
      split; [reflexivity | split].
      + intros i j e e' _ Hi Hj.
        apply list_lookup_singleton_Some in Hi as [_ <-].
        apply list_lookup_singleton_Some in Hj as [_ <-]. apply date_le_refl.
      + intros e [<- | []]. simpl.
        split; [apply date_le_refl | split; [apply date_le_refl|]].
        rewrite radd_days by apply today_valid.
        apply date_le_add_days; [apply today_valid | exact Hdays].
    - intros l1 Hok1 Hact (Hend & Hchron & Hbefore).
      rewrite current_day_after_pass by apply Hok1.
      unfold after_pass, Ledger.date_advance. simpl. split; [exact Hend | split].
      + apply (chronological_app _ _ (Ledger.current_day l1));
          [exact Hchron | intros e He; apply (Hbefore e He)|].
        intros e. apply post_all_date.
      + intros e He. apply in_app_or in He as [He | He].
        * destruct (Hbefore e He) as (H1 & H2 & H3). split; [exact H1 | split; [|exact H3]].
          eapply date_le_trans; [exact H2 | apply date_le_add_days; [apply Hok1 | lia]].
        * rewrite (post_all_date _ _ _ _ He).
          split; [apply Hok1 | split; [apply date_le_add_days; [apply Hok1 | lia]|]].
          rewrite <- Hend. apply leb_le, Hact. }
  destruct H as (_ & _ & Hchron & Hall).
  split; [exact Hchron | split].
  - intros e He. destruct (Hall e He) as (H1 & _ & H3). auto.
  - intros l' Hl'. apply reaches_appends; assumption.
Qed.

Section Occurrences.
Context {P : Platform} {L : PlatformLaws P}.

(** The loop returns for every horizon that is not negative, after one pass
    for today and one for each further day. *)
Lemma run_loop_returns (csv : csv_file) (days : Z) (start : float) (l0 : Ledger.t)
  (fuel : nat) :
  0 <= days -> Ledger.init csv days start = Ok l0 ->
  (Z.to_nat (days + 1) <= fuel)%nat ->
  Ledger.run_loop fuel l0 = Ok (Nat.iter (Z.to_nat (days + 1)) after_pass l0).
Proof.
  intros Hdays Hinit Hfuel.
  pose proof (init_ok _ _ _ _ Hinit) as Hok0.
  destruct (init_spec _ _ _ _ Hinit) as (txs & _ & _ & E).
  assert (Hend : Ledger.end_day l0 = datetime.add_days today days).
  { rewrite E. simpl. apply radd_days, today_valid. }
  apply run_loop_iter; [exact Hok0 | | | exact Hfuel].
  - rewrite Hend. apply add_days_valid; [apply today_valid | exact Hdays].
  - rewrite Hend, toordinal_add_days by (auto using today_valid).
    rewrite E. simpl. lia.
Qed.

Lemma iter_after_pass_appends (m : nat) (l : Ledger.t) :
  exists more,
    Ledger.transaction_log (Nat.iter m after_pass l) = Ledger.transaction_log l ++ more.
Proof.
  induction m as [|m [more IH]].
  - exists []. rewrite app_nil_r. reflexivity.
  - rewrite iter_after_pass_S. unfold after_pass at 1, Ledger.date_advance. simpl.
    rewrite IH, <- app_assoc. eauto.
Qed.

(** A transaction that has fired [k] times. *)
Lemma advanced_times (k : nat) (tx : RecurringTransaction.t) :
  same_definition tx (Nat.iter k advanced tx)
  /\ RecurringTransaction.next_date (Nat.iter k advanced tx)
     = steps k (RecurringTransaction.frequency tx) (RecurringTransaction.next_date tx).
Proof.
  induction k as [|k [Hsame Hdate]]; [split; [apply same_definition_refl | reflexivity]|].
  change (Nat.iter (S k) advanced tx) with (advanced (Nat.iter k advanced tx)). split.
  - destruct Hsame as (H1 & H2 & H3 & H4 & H5). unfold same_definition, advanced. simpl. auto.
  - unfold advanced at 1. cbn [RecurringTransaction.next_date]. rewrite Hdate.
    destruct Hsame as (_ & _ & _ & _ & <-). reflexivity.
Qed.

Lemma steps_ordinal_succ (k : nat) (r : relativedelta) (d : date) :
  datetime.valid d -> is_step r ->
  datetime.toordinal (steps k r d) < datetime.toordinal (steps (S k) r d).
Proof.
  intros Hd Hr. apply date_lt_ordinal; auto using steps_valid.
  change (steps (S k) r d) with (steps k r d +rd r). apply radd_lt; auto using steps_valid.
Qed.

(** The pass on the date of its [k]-th occurrence finds the transaction due
    for the [k]-th time. *)
Lemma occurrence_is_met (l0 : Ledger.t) (i : nat) (tx : RecurringTransaction.t) (k : nat) :
  ledger_ok l0 -> Ledger.recurring_transactions l0 !! i = Some tx ->
  exists j,
    Z.of_nat j
    = datetime.toordinal (steps k (RecurringTransaction.frequency tx)
                            (RecurringTransaction.next_date tx))
      - datetime.toordinal (Ledger.current_day l0)
    /\ Ledger.recurring_transactions (Nat.iter j after_pass l0) !! i
       = Some (Nat.iter k advanced tx).
Proof.
  intros Hok Htx.
  assert (Htxok : tx_ok (Ledger.current_day l0) tx).
  { destruct Hok as (_ & _ & Htxs). rewrite Forall_lookup in Htxs. eapply Htxs, Htx. }
  destruct Htxok as (Hv & Hr & Hle).
  assert (Hcur : datetime.valid (Ledger.current_day l0)) by apply Hok.
  apply date_le_ordinal in Hle; [|assumption..].
  induction k as [|k (j & Hj & Hk)].
  - exists (Z.to_nat (datetime.toordinal (RecurringTransaction.next_date tx)
                      - datetime.toordinal (Ledger.current_day l0))).
    simpl. split; [lia|]. apply iter_after_pass_keeps; [assumption..|]. lia.
  - pose proof (steps_ordinal_succ k _ _ Hv Hr) as Hnext.
    set (dk := steps k (RecurringTransaction.frequency tx)
                 (RecurringTransaction.next_date tx)) in *.
    set (dk' := steps (S k) (RecurringTransaction.frequency tx)
                  (RecurringTransaction.next_date tx)) in *.
    set (A := Nat.iter j after_pass l0) in *.
    pose proof (iter_after_pass_ok j l0 Hok) as HokA. fold A in HokA.
    destruct (advanced_times k tx) as [Hsame Hdate]. fold dk in Hdate.
    assert (HdayA : Ledger.current_day A = dk).
    { unfold A. rewrite iter_after_pass_current_day by exact Hok.
      unfold datetime.add_days. rewrite Hj.
      replace (datetime.toordinal (Ledger.current_day l0)
               + (datetime.toordinal dk - datetime.toordinal (Ledger.current_day l0)))
        with (datetime.toordinal dk) by lia.
      apply fromordinal_toordinal. apply steps_valid; assumption. }
    set (m := Z.to_nat (datetime.toordinal dk' - datetime.toordinal dk - 1)).
    exists (m + S j)%nat. split; [lia|].
    rewrite Nat.iter_add. rewrite iter_after_pass_S. fold A.
    apply iter_after_pass_keeps.
    + apply after_pass_ok, HokA.
    + unfold after_pass, Ledger.date_advance. simpl. rewrite list_lookup_fmap, Hk. simpl.
      f_equal. unfold after_day, RecurringTransaction.is_due.
      rewrite HdayA, Hdate.
      assert (E : datetime.eqb dk dk = true) by (apply eqb_eq; reflexivity).
      rewrite E. reflexivity.
    + rewrite current_day_after_pass by apply HokA.
      rewrite toordinal_add_days by (try apply HokA; lia). rewrite HdayA.
      change (Nat.iter (S k) advanced tx) with (advanced (Nat.iter k advanced tx)).
      unfold advanced at 1. cbn [RecurringTransaction.next_date].
      rewrite Hdate. destruct Hsame as (_ & _ & _ & _ & <-).
      change (dk +rd RecurringTransaction.frequency tx) with dk'. lia.
Qed.

End Occurrences.



(** X10.  Nothing else is posted: all along a run every entry after the
    Opening Balance entry carries the name and the amount of a transaction
    of the collection, and its date is a whole number of recurrence steps
    after the first due date of that transaction. *)
Theorem every_entry_is_an_occurrence {P : Platform} {L : PlatformLaws P}
  (csv : csv_file) (days : Z) (start : float) (l0 l : Ledger.t) :
  Ledger.init csv days start = Ok l0 -> reaches l0 l ->
  forall j e, Ledger.transaction_log l !! S j = Some e ->
    exists i tx k,
      Ledger.recurring_transactions l0 !! i = Some tx
      /\ LedgerEntry.date e = steps k (RecurringTransaction.frequency tx)
                                (RecurringTransaction.next_date tx)
      /\ LedgerEntry.name e = RecurringTransaction.name tx
      /\ LedgerEntry.amount e = RecurringTransaction.amount tx.
Proof.
  intros Hinit Hreach.
  pose proof (init_ok _ _ _ _ Hinit) as Hok0.
  set (occurrence := fun e : LedgerEntry.t =>
         exists i tx k,
           Ledger.recurring_transactions l0 !! i = Some tx
           /\ LedgerEntry.date e = steps k (RecurringTransaction.frequency tx)
                                     (RecurringTransaction.next_date tx)
           /\ LedgerEntry.name e = RecurringTransaction.name tx
           /\ LedgerEntry.amount e = RecurringTransaction.amount tx).
  assert (H : ledger_ok l
              /\ ((forall i tx', Ledger.recurring_transactions l !! i = Some tx' ->
                     exists tx k, Ledger.recurring_transactions l0 !! i = Some tx
                                  /\ tx' = Nat.iter k advanced tx)
                  /\ (forall j e, Ledger.transaction_log l !! S j = Some e -> occurrence e)));
    [|apply H].
  apply (reaches_ind_ok l0
           (fun l => (forall i tx', Ledger.recurring_transactions l !! i = Some tx' ->
                        exists tx k, Ledger.recurring_transactions l0 !! i = Some tx
                                     /\ tx' = Nat.iter k advanced tx)
                     /\ (forall j e, Ledger.transaction_log l !! S j = Some e ->
                           occurrence e))); auto.
  - split.
    + intros i tx Htx. exists tx, 0%nat. auto.
    + destruct (init_spec _ _ _ _ Hinit) as (txs & _ & _ & ->). simpl.
      intros j e He. apply lookup_nil in He || discriminate He.
  - intros l1 Hok1 _ [Htxs Hlog]. split.
    + intros i tx' Htx'. unfold after_pass, Ledger.date_advance in Htx'. simpl in Htx'.
      rewrite list_lookup_fmap in Htx'.
      destruct (Ledger.recurring_transactions l1 !! i) as [tx1|] eqn:E1; [|discriminate].
      simpl in Htx'. injection Htx' as <-.
      destruct (Htxs i tx1 E1) as (tx & k & Htx & ->).
      unfold after_day. destruct (RecurringTransaction.is_due _ _).
      * exists tx, (S k). auto.
      * exists tx, k. auto.
    + intros j e He. unfold after_pass, Ledger.date_advance in He. simpl in He.
      apply lookup_app_Some in He as [He | [_ He]]; [eapply Hlog, He|].
      apply list_elem_of_lookup_2, list_elem_of_In in He.
      assert (Hpost : forall bal day due e,
                 In e (post_all bal day due) ->
                 exists tx, In tx due /\ LedgerEntry.date e = day
                            /\ LedgerEntry.name e = RecurringTransaction.name tx
                            /\ LedgerEntry.amount e = RecurringTransaction.amount tx).
      { intros bal day due. revert bal. induction due as [|tx due IH]; intros bal e0;
          simpl; [tauto|].
        intros [<- | Hin]; [exists tx; simpl; auto|].
        destruct (IH _ _ Hin) as (tx0 & H0 & H1). exists tx0. auto. }
      destruct (Hpost _ _ _ _ He) as (tx1 & Hin & Hd & Hn & Ha).
      unfold due_on in Hin. apply filter_In in Hin as [Hin Hdue].
      apply list_elem_of_In, list_elem_of_lookup in Hin as [i Hi].
      destruct (Htxs i tx1 Hi) as (tx & k & Htx & ->).
      destruct (advanced_times k tx) as [(Hname & _ & _ & Hamount & _) Hdate].
      exists i, tx, k. split; [exact Htx|].
      unfold RecurringTransaction.is_due in Hdue. apply eqb_eq in Hdue.
      rewrite Hd, Hn, Ha, <- Hdue, Hdate, Hname, Hamount. auto.
Qed.

(** X11.  The ledger that construction and [run_loop] leave always starts
    with the Opening Balance entry, so [export_ledger] on it never fails
    with the [IndexError] of an empty ledger sequence: it hands the four
    field names date, name, amount, balance and one row per entry, the
    Opening Balance row first, to the writer, and ends normally when the
    file was written and with exit status 1 and a diagnostic line
    otherwise. *)
Theorem export_after_a_run_never_raises {P : Platform}
  (fuel : nat) (csv : csv_file) (days : Z) (start : float) (l : Ledger.t) :
  simulate fuel csv days start = Ok l ->
  exists rest,
    Ledger.transaction_log l = opening_entry today start :: rest
    /\ forall path,
         Ledger.export_ledger l path
         = match write_csv path ["date"; "name"; "amount"; "balance"]%string
                   (LedgerEntry.to_dict (opening_entry today start)
                    :: map LedgerEntry.to_dict rest) with
           | Written => Ok tt
           | FileNotFoundError => Exit "Unable to write to the export location" 1
           | OtherException e => Exit ("An unexpected error occurred: " +:+ e) 1
           end.
Proof.
  intros Hsim. destruct (simulate_log_ok _ _ _ _ _ Hsim) as (_ & [rest Hlog] & _).
  exists rest. split; [exact Hlog|]. intros path.
  unfold Ledger.export_ledger. rewrite Hlog. reflexivity.
Qed.


(* ===================================================================== *)
(** * The properties above on the sample interpreter                      *)
(* ===================================================================== *)

(** An expense written as 50 is stored as -50. *)
Lemma amount_sign_follows_kind_sample :
  RecurringTransaction.amount_setter (Some "Gym"%string) (Some "expense"%string)
    (Some "50"%string)
  = Ok (-50)%float
  /\ PrimFloat.ltb 0%float (-50)%float = false.
Proof.
  exact (proj1 (amount_sign_follows_kind (P := Sample.platform)
                  (Some "Gym"%string) (Some "expense"%string) "50"%string 50%float
                  eq_refl)
           eq_refl).
Defined.

(** The weekly gym expense, constructed. *)
Lemma constructed_transaction_is_valid_sample :
  exists tx,
    RecurringTransaction.init (Some "Gym"%string) (Some "expense"%string)
      (Some "50"%string) (Some "weekly"%string) (Some "2024-01-29"%string) = Ok tx
    /\ RecurringTransaction.name tx = Some "Gym"%string
    /\ In (RecurringTransaction.frequency tx) seven_steps.
Proof.
  evar (tx : RecurringTransaction.t).
  assert (Hinit : RecurringTransaction.init (Some "Gym"%string) (Some "expense"%string)
                    (Some "50"%string) (Some "weekly"%string) (Some "2024-01-29"%string)
                  = Ok tx)
    by (subst tx; vm_compute; reflexivity).
  exists tx. split; [exact Hinit|].
  pose proof (constructed_transaction_is_valid (L := sample_laws) _ _ _ _ _ tx Hinit) as H.
  exact (conj (proj1 H) (proj1 (proj2 (proj2 H)))).
Defined.

(** A second line with a frequency that is not one of the seven stops the
    load, whatever the first line was. *)
Lemma bad_row_aborts_the_load_sample :
  Ledger.init
    (mk_csv (Some Sample.fields)
       [ ["Gym"; "weekly"; "2024-01-29"; "50"; "expense"]%string;
         ["Rent"; "fortnightly"; "2024-02-01"; "1200"; "expense"]%string ])
    5 1000%float
  = Exit "Invalid frequency for Rent." 1.
Proof.
  refine (proj2 (proj1 (bad_row_aborts_the_load (P := Sample.platform)
            (mk_csv (Some Sample.fields)
               [ ["Gym"; "weekly"; "2024-01-29"; "50"; "expense"]%string;
                 ["Rent"; "fortnightly"; "2024-02-01"; "1200"; "expense"]%string ])
            5 1000%float
            [DictReader_row Sample.fields
               ["Gym"; "weekly"; "2024-01-29"; "50"; "expense"]%string]
            (DictReader_row Sample.fields
               ["Rent"; "fortnightly"; "2024-02-01"; "1200"; "expense"]%string)
            [] _ _ _) _ _ _)).
  - vm_compute. reflexivity.
  - reflexivity.
  - constructor; [|constructor]. eexists. vm_compute. reflexivity.
  - vm_compute. reflexivity.
Defined.


(** Two lines give two transactions. *)
Lemma import_keeps_the_lines_in_order_sample :
  exists txs,
    Ledger.import_transactions Sample.two_on_day_3 = Ok txs
    /\ length txs
       = length (List.filter (fun r => match r with [] => false | _ => true end)
                   (records Sample.two_on_day_3)).
Proof.
  evar (txs : list RecurringTransaction.t).
  assert (Himp : Ledger.import_transactions Sample.two_on_day_3 = Ok txs)
    by (subst txs; vm_compute; reflexivity).
  exists txs. split; [exact Himp|].
  exact (proj1 (import_keeps_the_lines_in_order (P := Sample.platform)
                  Sample.two_on_day_3 txs Himp)).
Defined.

(** The ledger with A and B after the passes of the first three days. *)
Lemma ledger_only_grows_in_date_order_sample :
  exists l0 l,
    Ledger.init Sample.two_on_day_3 9 1000%float = Ok l0
    /\ reaches l0 l
    /\ length (Ledger.transaction_log l) = 3%nat
    /\ chronological (Ledger.transaction_log l).
Proof.
  evar (l0 : Ledger.t).
  assert (Hinit : Ledger.init Sample.two_on_day_3 9 1000%float = Ok l0)
    by (subst l0; vm_compute; reflexivity).
  evar (l : Ledger.t).
  assert (Hreach : reaches l0 l).
  { subst l. eapply reaches_pass.
    - eapply reaches_pass.
      + eapply reaches_pass.
        * apply reaches_start.
        * vm_compute. reflexivity.
        * vm_compute. reflexivity.
      + vm_compute. reflexivity.
      + vm_compute. reflexivity.
    - vm_compute. reflexivity.
    - vm_compute. reflexivity. }
  exists l0, l.
  split; [exact Hinit | split; [exact Hreach | split; [vm_compute; reflexivity|]]].
  exact (proj1 (ledger_only_grows_in_date_order (L := sample_laws)
                  Sample.two_on_day_3 9 1000%float l0 l
                  ltac:(lia) Hinit Hreach)).
Defined.



(** The entry after the Opening Balance entry on the first day of the run
    with the weekly expense. *)
Lemma every_entry_is_an_occurrence_sample :
  exists l0 l e,
    Ledger.init Sample.weekly_expense 5 1000%float = Ok l0
    /\ reaches l0 l
    /\ Ledger.transaction_log l !! 1%nat = Some e
    /\ exists i tx k,
         Ledger.recurring_transactions l0 !! i = Some tx
         /\ LedgerEntry.date e = steps k (RecurringTransaction.frequency tx)
                                   (RecurringTransaction.next_date tx)
         /\ LedgerEntry.name e = RecurringTransaction.name tx
         /\ LedgerEntry.amount e = RecurringTransaction.amount tx.
Proof.
  evar (l0 : Ledger.t).
  assert (Hinit : Ledger.init Sample.weekly_expense 5 1000%float = Ok l0)
    by (subst l0; vm_compute; reflexivity).
  evar (l : Ledger.t).
  assert (Hreach : reaches l0 l).
  { subst l. eapply reaches_pass.
    - apply reaches_start.
    - vm_compute. reflexivity.
    - vm_compute. reflexivity. }
  evar (e : LedgerEntry.t).
  assert (He : Ledger.transaction_log l !! 1%nat = Some e)
    by (subst e; vm_compute; reflexivity).
  exists l0, l, e.
  split; [exact Hinit | split; [exact Hreach | split; [exact He|]]].
  exact (every_entry_is_an_occurrence (L := sample_laws)
           Sample.weekly_expense 5 1000%float l0 l Hinit Hreach 0%nat e He).
Defined.

(** The ledger of the run with the weekly expense is exported. *)
Lemma export_after_a_run_sample :
  exists l,
    simulate 6 Sample.weekly_expense 5 1000%float = Ok l
    /\ Ledger.export_ledger l "forecast.csv" = Ok tt.
Proof.
  evar (l : Ledger.t).
  assert (Hsim : simulate 6 Sample.weekly_expense 5 1000%float = Ok l)
    by (subst l; vm_compute; reflexivity).
  exists l. split; [exact Hsim|].
  destruct (export_after_a_run_never_raises (P := Sample.platform)
              6 Sample.weekly_expense 5 1000%float l Hsim) as (rest & _ & Hexport).
  exact (Hexport "forecast.csv"%string).
Defined.


(* ===================================================================== *)
(** * Text                                                                *)
(* ===================================================================== *)

Section Text.

Lemma len_append (s t : string) : len (s +:+ t) = len s + len t.
Proof.
  unfold len. induction s as [|c s IH]; [reflexivity|].
  change (String c s +:+ t) with (String c (s +:+ t)).
  cbn [String.length]. rewrite !Nat2Z.inj_succ. lia.
Qed.

Lemma len_nonneg (s : string) : 0 <= len s.
Proof. unfold len. lia. Qed.

Lemma len_mul (c : ascii) (n : Z) : len (mul (String c EmptyString) n) = Z.max 0 n.
Proof.
  unfold mul. destruct (Z.le_gt_cases n 0) as [Hn | Hn].
  - replace (Z.to_nat n) with 0%nat by lia. simpl. unfold len. simpl. lia.
  - rewrite Z.max_r by lia. rewrite <- (Z2Nat.id n) at 2 by lia.
    induction (Z.to_nat n) as [|k IH]; [reflexivity|].
    change (Nat.iter (S k) (String.append (String c EmptyString)) EmptyString)
      with (String c EmptyString +:+ Nat.iter k (String.append (String c EmptyString))
                                      EmptyString).
    rewrite len_append, IH. unfold len. simpl. lia.
Qed.

Lemma len_ljust (s : string) (width : Z) : len (ljust s width) = Z.max (len s) width.
Proof. unfold ljust. rewrite len_append, len_mul. lia. Qed.

Lemma len_rjust (s : string) (width : Z) : len (rjust s width) = Z.max (len s) width.
Proof. unfold rjust. rewrite len_append, len_mul. lia. Qed.

Lemma py_max_spec (x : Z) (xs : list Z) (default : Z) :
  In (py_max (x :: xs) default) (x :: xs)
  /\ forall y, In y (x :: xs) -> y <= py_max (x :: xs) default.
Proof.
  unfold py_max. revert x. induction xs as [|x' xs IH]; intros x; simpl.
  - split; [left; reflexivity | intros y [<- | []]; lia].
  - destruct (IH (Z.max x x')) as [Hin Hle]. split.
    + destruct Hin as [Hin | Hin]; [|right; right; exact Hin].
      rewrite <- Hin. destruct (Z.max_spec x x') as [[_ ->] | [_ ->]]; auto.
    + intros y [<- | [<- | Hy]].
      * etransitivity; [|apply Hle; left; reflexivity]. lia.
      * etransitivity; [|apply Hle; left; reflexivity]. lia.
      * apply Hle. right. exact Hy.
Qed.

End Text.

(* ===================================================================== *)
(** * The printed table                                                   *)
(* ===================================================================== *)

Section Table.
Context {R : Rendering}.

(** The set of lengths that [get_max_column_size] collects. *)
Lemma str_lengths_spec (column : LedgerEntry.attribute) (logs : list LedgerEntry.t)
  (init : gset Z) (n : Z) :
  n ∈ foldl (fun str_lengths log =>
               {[ len (py_str (LedgerEntry.getattr log column)) ]} ∪ str_lengths)
        init logs
  <-> n ∈ init
      \/ exists log, In log logs /\ n = len (py_str (LedgerEntry.getattr log column)).
Proof.
  revert init. induction logs as [|log logs IH]; intros init; simpl.
  - split; [auto | intros [H | (log & [] & _)]; exact H].
  - rewrite IH. rewrite elem_of_union, elem_of_singleton. split.
    + intros [[-> | H] | (log' & Hin & ->)]; eauto.
    + intros [H | (log' & [<- | Hin] & ->)]; eauto.
Qed.

(** The lengths are those of the texts of the column in the entries. *)
Lemma column_lengths (self : Ledger.t) (column : LedgerEntry.attribute) (n : Z) :
  n ∈ elements
        (foldl (fun (str_lengths : gset Z) log =>
                  {[ len (py_str (LedgerEntry.getattr log column)) ]} ∪ str_lengths)
           ∅ (Ledger.transaction_log self))
  <-> exists log, In log (Ledger.transaction_log self)
                  /\ n = len (py_str (LedgerEntry.getattr log column)).
Proof.
  rewrite elem_of_elements, str_lengths_spec.
  split; [intros [H | H]; [set_solver | exact H] | auto].
Qed.

Lemma get_max_column_size_bound (self : Ledger.t) (column : LedgerEntry.attribute)
  (log : LedgerEntry.t) :
  In log (Ledger.transaction_log self) ->
  len (py_str (LedgerEntry.getattr log column)) <= Ledger.get_max_column_size self column.
Proof.
  intros Hlog. unfold Ledger.get_max_column_size.
  pose proof (column_lengths self column) as Hspec.
  destruct (elements _) as [|x xs].
  - exfalso. eapply not_elem_of_nil, Hspec. eauto.
  - apply (py_max_spec x xs), list_elem_of_In, Hspec. eauto.
Qed.

Lemma get_max_column_size_nonneg (self : Ledger.t) (column : LedgerEntry.attribute) :
  0 <= Ledger.get_max_column_size self column.
Proof.
  destruct (Ledger.transaction_log self) as [|log logs] eqn:E.
  - unfold Ledger.get_max_column_size. rewrite E. simpl. rewrite elements_empty.
    unfold py_max, DEFAULT_COLUMN_SIZE. lia.
  - etransitivity; [apply len_nonneg|].
    apply (get_max_column_size_bound self column log). rewrite E. left. reflexivity.
Qed.

End Table.

(** X13.  [get_max_column_size] returns the default of 12 only for an empty
    ledger sequence; otherwise it returns the length of the text of the
    column in some entry, and the text of the column in no entry is longer
    than that. *)
Theorem column_size_is_the_longest_text {R : Rendering} (self : Ledger.t)
  (column : LedgerEntry.attribute) :
  (Ledger.transaction_log self = [] -> Ledger.get_max_column_size self column = 12)
  /\ (Ledger.transaction_log self <> [] ->
      (exists log, In log (Ledger.transaction_log self)
                   /\ Ledger.get_max_column_size self column
                      = len (py_str (LedgerEntry.getattr log column)))
      /\ forall log, In log (Ledger.transaction_log self) ->
           len (py_str (LedgerEntry.getattr log column))
           <= Ledger.get_max_column_size self column).
Proof.
  unfold Ledger.get_max_column_size. split.
  - intros ->. simpl. rewrite elements_empty. reflexivity.
  - intros Hne. pose proof (column_lengths self column) as Hspec.
    destruct (elements _) as [|x xs].
    { destruct (Ledger.transaction_log self) as [|log logs]; [contradiction|].
      exfalso. eapply not_elem_of_nil, Hspec. exists log. split; [left|]; reflexivity. }
    destruct (py_max_spec x xs DEFAULT_COLUMN_SIZE) as [Hin Hle]. split.
    + apply list_elem_of_In, Hspec in Hin. destruct Hin as (log & Hlog & ->). eauto.
    + intros log Hlog. apply Hle, list_elem_of_In, Hspec. eauto.
Qed.

(* ===================================================================== *)
(** * Printing the ledger                                                 *)
(* ===================================================================== *)

Section Printing.
Context {R : Rendering}.

Lemma append_nil_r (s : string) : s +:+ EmptyString = s.
Proof.
  induction s as [|c s IH]; [reflexivity|].
  change (String c s +:+ EmptyString) with (String c (s +:+ EmptyString)).
  rewrite IH. reflexivity.
Qed.

Lemma append_assoc (s t u : string) : (s +:+ t) +:+ u = s +:+ (t +:+ u).
Proof.
  induction s as [|c s IH]; [reflexivity|].
  change (String c ((s +:+ t) +:+ u) = String c (s +:+ (t +:+ u))).
  rewrite IH. reflexivity.
Qed.

(** The row of an entry that has a name: the padded date, the padded name
    and the two amounts, then the line end. *)
Lemma print_ledger_body_named (max_date max_name max_amount max_balance : Z)
  (log : LedgerEntry.t) (name : string) :
  LedgerEntry.name log = Some name ->
  Ledger.print_ledger_body max_date max_name max_amount max_balance log
  = mk_io (ljust (strftime_ymd (LedgerEntry.date log)) max_date
           +:+ ljust name max_name
           +:+ "$" +:+ rjust (format_comma_2f (LedgerEntry.amount log)) max_amount
           +:+ "  $" +:+ rjust (format_comma_2f (LedgerEntry.balance log)) max_balance
           +:+ newline)
      (Ok tt).
Proof.
  intros Hname. unfold Ledger.print_ledger_body, format_left. rewrite Hname.
  reflexivity.
Qed.

(** An entry without a name stops the table after its date. *)
Lemma print_ledger_body_nameless (max_date max_name max_amount max_balance : Z)
  (log : LedgerEntry.t) :
  LedgerEntry.name log = None ->
  Ledger.print_ledger_body max_date max_name max_amount max_balance log
  = mk_io (ljust (strftime_ymd (LedgerEntry.date log)) max_date) (Raise TypeError).
Proof.
  intros Hname. unfold Ledger.print_ledger_body, format_left. rewrite Hname.
  unfold mbind, io_bind. simpl. rewrite append_nil_r. reflexivity.
Qed.

Lemma io_for_each_ok {X : Type} (body : X -> io unit) (row : X -> string) (xs : list X) :
  Forall (fun x => body x = mk_io (row x) (Ok tt)) xs ->
  io_for_each body xs = mk_io (foldr append EmptyString (map row xs)) (Ok tt).
Proof.
  induction 1 as [|x xs Hx _ IH]; [reflexivity|].
  cbn [io_for_each]. unfold mbind, io_bind. rewrite Hx, IH. reflexivity.
Qed.

Lemma io_for_each_stops {X : Type} (body : X -> io unit) (row : X -> string)
  (before : list X) (x : X) (after : list X) (text : string) (e : exn) :
  Forall (fun x => body x = mk_io (row x) (Ok tt)) before ->
  body x = mk_io text (Raise e) ->
  io_for_each body (before ++ x :: after)
  = mk_io (foldr append EmptyString (map row before) +:+ text) (Raise e).
Proof.
  intros Hbefore Hx. induction Hbefore as [|y before Hy _ IH].
  - simpl. unfold mbind, io_bind. rewrite Hx. reflexivity.
  - simpl. unfold mbind, io_bind. rewrite Hy. simpl.
    unfold mbind, io_bind in IH. rewrite IH. simpl. rewrite append_assoc. reflexivity.
Qed.

(** [print_ledger] prints the header, the separator and then the rows. *)
Lemma print_ledger_shape (self : Ledger.t) :
  let max_name := Ledger.get_max_column_size self LedgerEntry.attr_name + 4 in
  let max_amount := Ledger.get_max_column_size self LedgerEntry.attr_amount + 4 in
  let max_balance := Ledger.get_max_column_size self LedgerEntry.attr_balance + 4 in
  let rows := io_for_each (Ledger.print_ledger_body 14 max_name max_amount max_balance)
                (Ledger.transaction_log self) in
  exists header_rest,
    let header := ljust "Date" 14 +:+ ljust "Name" max_name +:+ header_rest in
    Ledger.print_ledger self
    = mk_io (header +:+ newline +:+ mul "-" (len header) +:+ newline +:+ written rows)
        (result rows).
Proof.
  intros max_name max_amount max_balance rows.
  exists (rjust "Amount" (max_amount + 1) +:+ rjust "Balance" (max_balance + 3)).
  unfold Ledger.print_ledger, print. cbv zeta. unfold mbind, io_bind.
  cbn [result written]. change (10 + COLUMN_BUFFER) with 14.
  change COLUMN_BUFFER with 4. fold max_name max_amount max_balance. fold rows.
  rewrite !append_assoc. destruct (result rows); reflexivity.
Qed.

End Printing.

(** X14.  [print_ledger] runs to its end when every entry has a name, and
    otherwise raises [TypeError] at the first entry that has none: by then
    it has written the header, the separator, one row for each entry before
    that one, and the date cell of that entry. *)
Theorem print_ledger_stops_at_an_entry_without_name {R : Rendering} (self : Ledger.t) :
  (Forall (fun log => is_Some (LedgerEntry.name log)) (Ledger.transaction_log self) ->
   result (Ledger.print_ledger self) = Ok tt)
  /\ (forall before log after,
        Ledger.transaction_log self = before ++ log :: after ->
        Forall (fun log => is_Some (LedgerEntry.name log)) before ->
        LedgerEntry.name log = None ->
        result (Ledger.print_ledger self) = Raise TypeError
        /\ exists header rows,
             length rows = length before
             /\ written (Ledger.print_ledger self)
                = header +:+ newline +:+ mul "-" (len header) +:+ newline
                  +:+ foldr append EmptyString rows
                  +:+ ljust (strftime_ymd (LedgerEntry.date log)) 14).
Proof.
  destruct (print_ledger_shape self) as [header_rest Hshape]. cbv zeta in Hshape.
  set (max_name := Ledger.get_max_column_size self LedgerEntry.attr_name + 4) in *.
  set (max_amount := Ledger.get_max_column_size self LedgerEntry.attr_amount + 4) in *.
  set (max_balance := Ledger.get_max_column_size self LedgerEntry.attr_balance + 4) in *.
  set (row := fun log =>
         ljust (strftime_ymd (LedgerEntry.date log)) 14
         +:+ ljust (str (LedgerEntry.name log)) max_name
         +:+ "$" +:+ rjust (format_comma_2f (LedgerEntry.amount log)) max_amount
         +:+ "  $" +:+ rjust (format_comma_2f (LedgerEntry.balance log)) max_balance
         +:+ newline).
  assert (Hrows : forall logs,
             Forall (fun log => is_Some (LedgerEntry.name log)) logs ->
             Forall (fun log =>
                       Ledger.print_ledger_body 14 max_name max_amount max_balance log
                       = mk_io (row log) (Ok tt)) logs).
  { intros logs Hlogs. eapply Forall_impl; [exact Hlogs|]. intros log [name Hname].
    rewrite (print_ledger_body_named _ _ _ _ log name Hname). unfold row.
    rewrite Hname. reflexivity. }
  rewrite Hshape. cbn [result written]. split.
  - intros Hall. rewrite (io_for_each_ok _ row _ (Hrows _ Hall)). reflexivity.
  - intros before log after Hlog Hbefore Hname. rewrite Hlog.
    rewrite (io_for_each_stops _ row before log after _ TypeError (Hrows _ Hbefore)
               (print_ledger_body_nameless _ _ _ _ log Hname)).
    cbn [result written]. split; [reflexivity|].
    eexists _, (map row before). split; [apply length_map | reflexivity].
Qed.


(* ===================================================================== *)
(** * The whole program                                                   *)
(* ===================================================================== *)

Section Names.
Context {P : Platform} {L : PlatformLaws P}.

Lemma init_name (name kind amount frequency next_date : cell)
  (tx : RecurringTransaction.t) :
  RecurringTransaction.init name kind amount frequency next_date = Ok tx ->
  RecurringTransaction.name tx = name.
Proof.
  unfold RecurringTransaction.init. intros Hinit.
  destruct (RecurringTransaction.transaction_type_setter name kind) as [[? ?]| | |];
    simpl in Hinit; try discriminate.
  destruct (RecurringTransaction.amount_setter name _ amount); simpl in Hinit;
    try discriminate.
  destruct (RecurringTransaction.frequency_setter name frequency); simpl in Hinit;
    try discriminate.
  destruct (RecurringTransaction.next_date_setter name _ _); simpl in Hinit;
    try discriminate.
  injection Hinit as <-. reflexivity.
Qed.

(** The name of a loaded transaction is what its row has under [name]. *)
Lemma transaction_names (csv : csv_file) (days : Z) (start : float) (l0 : Ledger.t)
  (tx : RecurringTransaction.t) :
  Ledger.init csv days start = Ok l0 -> In tx (Ledger.recurring_transactions l0) ->
  Ledger.validate_input_fields csv = Ok tt
  /\ exists row, In row (DictReader_rows csv)
                 /\ row !! "name"%string = Some (RecurringTransaction.name tx).
Proof.
  intros Hinit Htx. destruct (init_spec _ _ _ _ Hinit) as (txs & Himp & Hrows & ->).
  simpl in Htx.
  assert (Hval : Ledger.validate_input_fields csv = Ok tt).
  { unfold Ledger.import_transactions in Himp.
    destruct (Ledger.validate_input_fields csv) as [[]| | |]; try discriminate.
    reflexivity. }
  split; [exact Hval|].
  apply list_elem_of_In, list_elem_of_lookup in Htx as [i Hi].
  destruct (Forall2_lookup_r _ _ _ _ _ Hrows Hi) as (row & Hrow & Hok).
  assert (Hin : In row (DictReader_rows csv)).
  { apply list_elem_of_In, list_elem_of_lookup. eauto. }
  exists row. split; [exact Hin|].
  destruct (import_row_init csv row Hval Hin) as (n & k & a & f & d & Hn & _ & _ & _ & _ & E).
  rewrite E in Hok. rewrite (init_name _ _ _ _ _ _ Hok). exact Hn.
Qed.

(** Every entry is the Opening Balance entry or has the name of a
    transaction of the collection. *)
Lemma entry_names (csv : csv_file) (days : Z) (start : float) (l0 l : Ledger.t)
  (e : LedgerEntry.t) :
  Ledger.init csv days start = Ok l0 -> reaches l0 l ->
  In e (Ledger.transaction_log l) ->
  LedgerEntry.name e = Some "Opening Balance"%string
  \/ exists tx, In tx (Ledger.recurring_transactions l0)
                /\ LedgerEntry.name e = RecurringTransaction.name tx.
Proof.
  intros Hinit Hreach. revert e.
  pose proof (init_ok _ _ _ _ Hinit) as Hok0.
  assert (H : ledger_ok l
              /\ (Forall2 same_definition (Ledger.recurring_transactions l0)
                    (Ledger.recurring_transactions l)
                  /\ forall e, In e (Ledger.transaction_log l) ->
                       LedgerEntry.name e = Some "Opening Balance"%string
                       \/ exists tx, In tx (Ledger.recurring_transactions l0)
                                     /\ LedgerEntry.name e = RecurringTransaction.name tx));
    [|apply H].
  apply (reaches_ind_ok l0
           (fun l => Forall2 same_definition (Ledger.recurring_transactions l0)
                       (Ledger.recurring_transactions l)
                     /\ forall e, In e (Ledger.transaction_log l) ->
                          LedgerEntry.name e = Some "Opening Balance"%string
                          \/ exists tx, In tx (Ledger.recurring_transactions l0)
                                        /\ LedgerEntry.name e = RecurringTransaction.name tx));
    auto.
  - split; [apply Forall_Forall2_diag, Forall_forall; intros; apply same_definition_refl|].
    destruct (init_spec _ _ _ _ Hinit) as (txs & _ & _ & ->). simpl.
    intros e [<- | []]. left. reflexivity.
  - intros l1 Hok1 _ [Hsame Hlog]. split.
    + unfold after_pass, Ledger.date_advance. simpl.
      apply Forall2_fmap_r. eapply Forall2_impl; [exact Hsame|].
      intros a b Hab. apply same_definition_after_day, Hab.
    + intros e He. unfold after_pass, Ledger.date_advance in He. simpl in He.
      apply in_app_or in He as [He | He]; [apply Hlog, He|]. right.
      assert (Hpost : forall bal day due e,
                 In e (post_all bal day due) ->
                 exists tx, In tx due
                            /\ LedgerEntry.name e = RecurringTransaction.name tx).
      { intros bal day due. revert bal. induction due as [|tx due IH]; intros bal e0;
          simpl; [tauto|].
        intros [<- | Hin]; [exists tx; simpl; auto|].
        destruct (IH _ _ Hin) as (tx0 & H0 & H1). exists tx0. auto. }
      destruct (Hpost _ _ _ _ He) as (tx1 & Hin & Hn).
      unfold due_on in Hin. apply filter_In in Hin as [Hin _].
      apply list_elem_of_In, list_elem_of_lookup in Hin as [i Hi].
      destruct (Forall2_lookup_r _ _ _ _ _ Hsame Hi) as (tx0 & Htx0 & Hdef).
      exists tx0. split; [apply list_elem_of_In, list_elem_of_lookup; eauto|].
      rewrite Hn. symmetry. apply Hdef.
Qed.

(** A row without a name comes from a line shorter than the header. *)
Lemma nameless_row_is_short (csv : csv_file) (row : gmap string cell) :
  Ledger.validate_input_fields csv = Ok tt -> In row (DictReader_rows csv) ->
  row !! "name"%string = Some None ->
  exists fieldnames line,
    header csv = Some fieldnames /\ In line (records csv)
    /\ (0 < length line < length fieldnames)%nat.
Proof.
  intros Hval Hin Hnone. unfold DictReader_rows in Hin.
  unfold Ledger.validate_input_fields in Hval.
  destruct (header csv) as [fieldnames|] eqn:Hh; [|destruct Hin].
  apply in_map_iff in Hin as (line & Hline & Hfilter).
  apply filter_In in Hfilter as [Hrec Hne].
  exists fieldnames, line. split; [reflexivity | split; [exact Hrec|]].
  split; [destruct line; [discriminate | simpl; lia]|].
  destruct (Nat.lt_ge_cases (length line) (length fieldnames)) as [Hlt | Hge];
    [exact Hlt|].
  assert (Hname : In "name"%string fieldnames).
  { destruct (bool_decide _) eqn:E; [|discriminate].
    apply bool_decide_eq_true_1 in E.
    assert (Hkey : "name"%string ∈ REQUIRED_INPUT_FIELDS)
      by (unfold REQUIRED_INPUT_FIELDS; set_solver).
    rewrite <- E in Hkey. apply elem_of_list_to_set in Hkey.
    apply list_elem_of_In, Hkey. }
  destruct (DictReader_row_full fieldnames line "name" Hname Hge) as [v Hv].
  subst row. unfold cell in *. rewrite Hv in Hnone. discriminate.
Qed.

Context {R : Rendering}.

(** [print_ledger] ends normally or with the [TypeError] of an entry without
    a name. *)
Lemma print_ledger_result (self : Ledger.t) :
  result (Ledger.print_ledger self) = Ok tt
  \/ (result (Ledger.print_ledger self) = Raise TypeError
      /\ exists log, In log (Ledger.transaction_log self) /\ LedgerEntry.name log = None).
Proof.
  destruct (print_ledger_shape self) as [header_rest ->]. cbn [result].
  induction (Ledger.transaction_log self) as [|log logs IH]; [left; reflexivity|].
  cbn [io_for_each]. unfold mbind, io_bind.
  destruct (LedgerEntry.name log) as [name|] eqn:Hname.
  - rewrite (print_ledger_body_named _ _ _ _ log name Hname). cbn [result].
    destruct IH as [-> | (-> & log' & Hin & Hnone)]; [left; reflexivity|].
    right. split; [reflexivity|]. exists log'. split; [right; exact Hin | exact Hnone].
  - rewrite (print_ledger_body_nameless _ _ _ _ log Hname). cbn [result].
    right. split; [reflexivity|]. exists log. split; [left; reflexivity | exact Hname].
Qed.

(** An entry without a name in the ledger of a run comes from a line
    shorter than the header. *)
Lemma nameless_entry_has_short_line (csv : csv_file) (days : Z) (start : float)
  (l0 l : Ledger.t) (e : LedgerEntry.t) :
  Ledger.init csv days start = Ok l0 -> reaches l0 l ->
  In e (Ledger.transaction_log l) -> LedgerEntry.name e = None ->
  exists fieldnames line,
    header csv = Some fieldnames /\ In line (records csv)
    /\ (0 < length line < length fieldnames)%nat.
Proof.
  intros Hinit Hreach He Hnone.
  destruct (entry_names csv days start l0 l e Hinit Hreach He) as [Hopen | (tx & Htx & Hn)].
  { rewrite Hopen in Hnone. discriminate. }
  destruct (transaction_names csv days start l0 tx Hinit Htx) as (Hval & row & Hrow & Hname).
  apply (nameless_row_is_short csv row Hval Hrow). rewrite <- Hnone, Hn. exact Hname.
Qed.

End Names.

Section Main.
Context {P : Platform} {L : PlatformLaws P} {R : Rendering} {F : Files}.

(** [main] once the two checks have passed and the ledger object is
    constructed: the loop runs to its end, the table is printed, and the
    ledger is exported if a path was given. *)
Lemma main_after_loading (args : Namespace.t) (l0 : Ledger.t) :
  isfile (Namespace.input args) = true -> 0 < Namespace.days args ->
  Ledger.init (read_csv (Namespace.input args)) (Namespace.days args)
    (Namespace.start_balance args) = Ok l0 ->
  let l := Nat.iter (Z.to_nat (Namespace.days args + 1)) after_pass l0 in
  Ledger.run_loop (Z.to_nat (Namespace.days args + 1)) l0 = Ok l
  /\ written (main args) = written (Ledger.print_ledger l)
  /\ result (main args)
     = match result (Ledger.print_ledger l) with
       | Ok _ =>
         match Namespace.export args with
         | Some path =>
           if negb (String.eqb path EmptyString) then Ledger.export_ledger l path
           else Ok tt
         | None => Ok tt
         end
       | Exit message code => Exit message code
       | Raise e => Raise e
       | OutOfFuel => OutOfFuel
       end.
Proof.
  intros Hfile Hdays Hinit l.
  assert (Hrun : Ledger.run_loop (Z.to_nat (Namespace.days args + 1)) l0 = Ok l).
  { apply (run_loop_returns (read_csv (Namespace.input args)) (Namespace.days args)
             (Namespace.start_balance args)); [lia | exact Hinit | lia]. }
  split; [exact Hrun|].
  unfold main. rewrite Hfile. apply Z.gtb_lt in Hdays as Hgt. rewrite Hgt.
  cbn [negb]. rewrite Hinit. unfold mbind, io_bind, silent. cbn [result written].
  rewrite Hrun. cbn [result written append].
  destruct (result (Ledger.print_ledger l)) as [[]| | |]; cbn [result written append];
    [|split; reflexivity..].
  destruct (Namespace.export args) as [path|]; [destruct (negb _)|];
    cbn [result written mret io_ret]; rewrite append_nil_r; split; reflexivity.
Qed.

End Main.



(* ===================================================================== *)
(** * Runs compared                                                       *)
(* ===================================================================== *)

Section Horizons.
Context {P : Platform} {L : PlatformLaws P}.

(** What a pass reads of the ledger object: everything but the horizon. *)
Lemma after_pass_same_run (a b : Ledger.t) :
  Ledger.recurring_transactions a = Ledger.recurring_transactions b ->
  Ledger.current_day a = Ledger.current_day b ->
  Ledger.transaction_log a = Ledger.transaction_log b ->
  Ledger.current_balance a = Ledger.current_balance b ->
  Ledger.recurring_transactions (after_pass a) = Ledger.recurring_transactions (after_pass b)
  /\ Ledger.current_day (after_pass a) = Ledger.current_day (after_pass b)
  /\ Ledger.transaction_log (after_pass a) = Ledger.transaction_log (after_pass b)
  /\ Ledger.current_balance (after_pass a) = Ledger.current_balance (after_pass b).
Proof.
  intros Htxs Hday Hlog Hbal. unfold after_pass, Ledger.date_advance. simpl.
  rewrite Htxs, Hday, Hlog, Hbal. auto.
Qed.

Lemma iter_after_pass_same_run (n : nat) (a b : Ledger.t) :
  Ledger.recurring_transactions a = Ledger.recurring_transactions b ->
  Ledger.current_day a = Ledger.current_day b ->
  Ledger.transaction_log a = Ledger.transaction_log b ->
  Ledger.current_balance a = Ledger.current_balance b ->
  Ledger.transaction_log (Nat.iter n after_pass a)
  = Ledger.transaction_log (Nat.iter n after_pass b)
  /\ Ledger.current_balance (Nat.iter n after_pass a)
     = Ledger.current_balance (Nat.iter n after_pass b).
Proof.
  intros Htxs Hday Hlog Hbal.
  assert (H : Ledger.recurring_transactions (Nat.iter n after_pass a)
              = Ledger.recurring_transactions (Nat.iter n after_pass b)
              /\ Ledger.current_day (Nat.iter n after_pass a)
                 = Ledger.current_day (Nat.iter n after_pass b)
              /\ Ledger.transaction_log (Nat.iter n after_pass a)
                 = Ledger.transaction_log (Nat.iter n after_pass b)
              /\ Ledger.current_balance (Nat.iter n after_pass a)
                 = Ledger.current_balance (Nat.iter n after_pass b)).
  { induction n as [|n (H1 & H2 & H3 & H4)]; [simpl; auto|].
    rewrite !iter_after_pass_S. apply after_pass_same_run; assumption. }
  destruct H as (_ & _ & H3 & H4). auto.
Qed.

(** The entries that further passes append are dated on the current day or
    later. *)
Lemma iter_after_pass_appends_later (m : nat) (s : Ledger.t) :
  ledger_ok s ->
  exists more,
    Ledger.transaction_log (Nat.iter m after_pass s) = Ledger.transaction_log s ++ more
    /\ Forall (fun e => date_le (Ledger.current_day s) (LedgerEntry.date e)) more.
Proof.
  intros Hok. induction m as [|m (more & Hlog & Hlater)].
  - exists []. rewrite app_nil_r. auto.
  - rewrite iter_after_pass_S. unfold after_pass at 1, Ledger.date_advance. simpl.
    rewrite Hlog, <- app_assoc. eexists. split; [reflexivity|].
    apply Forall_app. split; [exact Hlater|]. apply Forall_forall. intros e He.
    apply list_elem_of_In in He. rewrite (post_all_date _ _ _ _ He).
    rewrite iter_after_pass_current_day by exact Hok.
    apply date_le_add_days; [apply Hok | lia].
Qed.

(** Without transactions a pass only moves the current day on. *)
Lemma iter_after_pass_idle (n : nat) (s : Ledger.t) :
  Ledger.recurring_transactions s = [] ->
  Ledger.recurring_transactions (Nat.iter n after_pass s) = []
  /\ Ledger.transaction_log (Nat.iter n after_pass s) = Ledger.transaction_log s
  /\ Ledger.current_balance (Nat.iter n after_pass s) = Ledger.current_balance s.
Proof.
  intros Hnone. induction n as [|n (Htxs & Hlog & Hbal)]; [auto|].
  rewrite iter_after_pass_S. set (s' := Nat.iter n after_pass s) in *.
  unfold after_pass, Ledger.date_advance. simpl.
  rewrite Htxs, Hlog, Hbal. simpl. rewrite app_nil_r. auto.
Qed.

End Horizons.

(** X18.  A ledger that [run_loop] has returned is finished: calling
    [run_loop] on it again returns it as it is, without a further pass, so
    nothing is posted twice. *)
Theorem run_loop_again_changes_nothing {P : Platform} (fuel : nat) (l0 l : Ledger.t) :
  Ledger.run_loop fuel l0 = Ok l ->
  Ledger.is_active l = false /\ forall fuel', Ledger.run_loop fuel' l = Ok l.
Proof.
  intros Hrun. destruct (run_loop_reaches _ _ _ Hrun) as [_ Hact].
  split; [exact Hact|].
  intros fuel'. destruct fuel'; simpl; rewrite Hact; reflexivity.
Qed.



(* ===================================================================== *)
(** * These properties on the sample interpreter                          *)
(* ===================================================================== *)




(** The ledger of the run with the weekly expense, run again. *)
Lemma run_loop_again_sample :
  exists l0 l,
    Ledger.init Sample.weekly_expense 5 1000%float = Ok l0
    /\ Ledger.run_loop 6 l0 = Ok l
    /\ Ledger.run_loop 6 l = Ok l.
Proof.
  evar (l0 : Ledger.t).
  assert (Hinit : Ledger.init Sample.weekly_expense 5 1000%float = Ok l0)
    by (subst l0; vm_compute; reflexivity).
  evar (l : Ledger.t).
  assert (Hrun : Ledger.run_loop 6 l0 = Ok l) by (subst l; vm_compute; reflexivity).
  exists l0, l. split; [exact Hinit | split; [exact Hrun|]].
  exact (proj2 (run_loop_again_changes_nothing (P := Sample.platform) 6 l0 l Hrun) 6%nat).
Defined.


